(** * godog-api-context: the step definitions of [apicontext.go]

    A shallow embedding of the [ApiContext] step library and the
    properties of its scope store, request builder and assertion steps.

    Go strings are byte strings: [string] (a list of [ascii] bytes).
    Go maps keyed by strings are [gmap string _]; reading a missing key
    of a [map[string]string] yields the empty string ([map_get]).
    A step mutates the receiver [ctx *ApiContext] and returns an [error];
    it is a function from the context to an [outcome]: either it returns
    (new context, [option error]) or the goroutine panics. *)

From Stdlib Require Import ZArith Ascii String List Bool Lia Floats Uint63.
From stdpp Require Import base option gmap strings list fin_maps pretty.

Import ListNotations.
Local Open Scope list_scope.

(** ** Byte strings: the functions of package [strings] the steps use *)

Module Strings.

Definition LF : ascii := "010"%char.
Definition backtick : ascii := "`"%char.
Definition slash : ascii := "/"%char.

(** [strings.HasPrefix(s, p)] *)
Fixpoint HasPrefix (s p : string) {struct p} : bool :=
  match p, s with
  | EmptyString, _ => true
  | String c p', String d s' => if Ascii.eqb c d then HasPrefix s' p' else false
  | String _ _, EmptyString => false
  end.

(** [s[n:]], the empty string when [n] exceeds the length *)
Fixpoint drop (n : nat) (s : string) : string :=
  match n, s with
  | O, _ => s
  | S n', String _ s' => drop n' s'
  | S _, EmptyString => EmptyString
  end.

(** [s[:n]], the whole string when [n] exceeds the length *)
Fixpoint take (n : nat) (s : string) : string :=
  match n, s with
  | O, _ => EmptyString
  | S n', String c s' => String c (take n' s')
  | S _, EmptyString => EmptyString
  end.

(** Whether the byte [c] occurs in [s] ([strings.IndexByte(s, c) >= 0]) *)
Fixpoint has_byte (c : ascii) (s : string) : bool :=
  match s with
  | EmptyString => false
  | String d s' => Ascii.eqb d c || has_byte c s'
  end.

(** [strings.Contains(s, sub)] *)
Fixpoint Contains (s sub : string) : bool :=
  if HasPrefix s sub then true
  else match s with
       | EmptyString => false
       | String _ s' => Contains s' sub
       end.

(** [strings.Replace(s, old, new, 1)]: the first occurrence of [old]
    is replaced; an empty [old] matches at the start of [s]. *)
Fixpoint Replace_first (s old new : string) : string :=
  if HasPrefix s old then new +:+ drop (String.length old) s
  else match s with
       | EmptyString => EmptyString
       | String c s' => String c (Replace_first s' old new)
       end.

(** [strings.TrimLeft(s, string(c))] for a one-byte cutset *)
Fixpoint TrimLeft (c : ascii) (s : string) : string :=
  match s with
  | String d s' => if Ascii.eqb d c then TrimLeft c s' else s
  | EmptyString => EmptyString
  end.

(** [strings.TrimRight(s, string(c))] for a one-byte cutset *)
Fixpoint TrimRight (c : ascii) (s : string) : string :=
  match s with
  | String d s' =>
      match TrimRight c s' with
      | EmptyString => if Ascii.eqb d c then EmptyString else String d EmptyString
      | r => String d r
      end
  | EmptyString => EmptyString
  end.

(** [strings.Trim(s, string(c))] for a one-byte cutset *)
Definition Trim (s : string) (c : ascii) : string :=
  TrimRight c (TrimLeft c s).

(** [filepath.Split(path)] with the separator [/]: the directory up to
    and including the last separator, and the file name after it. *)
Fixpoint Split (path : string) : string * string :=
  match path with
  | EmptyString => (EmptyString, EmptyString)
  | String c rest =>
      let (dir, file) := Split rest in
      match dir with
      | EmptyString =>
          if Ascii.eqb c slash then (String c EmptyString, file)
          else (EmptyString, String c file)
      | _ => (String c dir, file)
      end
  end.

(** [strings.Join(l, sep)] *)
Fixpoint Join (l : list string) (sep : string) : string :=
  match l with
  | [] => EmptyString
  | [x] => x
  | x :: l' => x +:+ sep +:+ Join l' sep
  end.

End Strings.

(** ** The scope store and the reference pattern *)

Module Regexp.
Import Strings.

(** The syntax of the patterns the steps compile: literal text, [.],
    concatenation, the lazy star [r*?] and one capturing group. *)
Inductive regex : Type :=
| Str (p : string)
| Dot
| Cat (r1 r2 : regex)
| LazyStar (r : regex)
| Group (r : regex).

(** [regexp.MustCompile("`##(.*?)`")] *)
Definition reference_pattern : regex :=
  Cat (Str "`##") (Cat (Group (LazyStar Dot)) (Str "`")).

(** Leftmost-first matching at the start of [s]: the match a
    backtracking search finds first.  The continuation [k] receives the
    rest of the input and the text of the group, which is what the
    group consumed.  A lazy star first tries to stop, and an iteration
    has to consume input; [fuel] bounds the iterations. *)
Fixpoint run (fuel : nat) (r : regex) (s : string) (cap : string)
    (k : string -> string -> option (string * string)) {struct fuel}
  : option (string * string) :=
  (fix go (r : regex) (s : string) (cap : string)
       (k : string -> string -> option (string * string)) {struct r}
     : option (string * string) :=
     match r with
     | Str p => if HasPrefix s p then k (drop (String.length p) s) cap else None
     | Dot =>
         match s with
         | String c s' => if Ascii.eqb c LF then None else k s' cap
         | EmptyString => None
         end
     | Cat r1 r2 => go r1 s cap (fun s' cap' => go r2 s' cap' k)
     | LazyStar r1 =>
         match k s cap with
         | Some res => Some res
         | None =>
             match fuel with
             | O => None
             | S fuel' =>
                 go r1 s cap
                   (fun s' cap' =>
                      if (String.length s' <? String.length s)%nat
                      then run fuel' (LazyStar r1) s' cap' k
                      else None)
             end
         end
     | Group r1 =>
         go r1 s cap
           (fun s' _ => k s' (take (String.length s - String.length s') s))
     end) r s cap k.

(** The match of [re] anchored at the start of [s]: the text of the
    group and the rest of the input. *)
Definition match_at_start (re : regex) (s : string) : option (string * string) :=
  run (S (String.length s)) re s EmptyString (fun rest cap => Some (cap, rest)).

(** [re.FindStringSubmatch(data)]: the leftmost match, as the slice
    [[whole match; group 1]]; [nil] when there is no match. *)
Fixpoint FindStringSubmatch (re : regex) (data : string) : list string :=
  match match_at_start re data with
  | Some (cap, rest) => [take (String.length data - String.length rest) data; cap]
  | None =>
      match data with
      | EmptyString => []
      | String _ data' => FindStringSubmatch re data'
      end
  end.

(** *** The reference pattern as a scanner

    What the engine does on [reference_pattern], written out: the
    group followed by the closing backtick, matched at the start of
    [s].  The lazy star stops at the first backtick, and [.] does not
    match a line feed.  Returns the captured text and the rest of the
    input. *)
Fixpoint match_group (s : string) : option (string * string) :=
  match s with
  | EmptyString => None
  | String c s' =>
      if Ascii.eqb c backtick then Some (EmptyString, s')
      else if Ascii.eqb c LF then None
      else match match_group s' with
           | Some (k, r) => Some (String c k, r)
           | None => None
           end
  end.

(** The whole pattern anchored at the start of [s]. *)
Definition match_here (s : string) : option (string * string) :=
  if HasPrefix s "`##" then match_group (drop 3 s) else None.

(** The leftmost match with its surroundings: the text before it, the
    captured key and the text after it. *)
Fixpoint find_reference (data : string) : option (string * string * string) :=
  match match_here data with
  | Some (k, post) => Some (EmptyString, k, post)
  | None =>
      match data with
      | EmptyString => None
      | String c rest =>
          match find_reference rest with
          | Some (pre, k, post) => Some (String c pre, k, post)
          | None => None
          end
      end
  end.

(** The pattern matches [data] at the offset [length pre] with [key] as
    the text of the group: the group is any run of bytes without a line
    feed. *)
Definition matches_at (data pre key post : string) : Prop :=
  data = pre +:+ "`##" +:+ key +:+ String backtick post /\ has_byte LF key = false.

End Regexp.

(** Reading a [map[string]string]: the zero value for a missing key. *)
Definition map_get (m : gmap string string) (k : string) : string :=
  default "" (m !! k).

(** [ctx.ReplaceScopeVariables(data)]; only the scope store is read. *)
Definition ReplaceScopeVariables (scope : gmap string string) (data : string) : string :=
  let re := Regexp.reference_pattern in
  let matches := Regexp.FindStringSubmatch re data in
  if (length matches <? 1)%nat || (String.length (nth 1 matches "") <? 1)%nat
  then data
  else
    let dataToReplace := nth 0 matches "" in
    let scopeKey := nth 1 matches "" in
    Strings.Replace_first data dataToReplace (map_get scope scopeKey).

(** ** Errors, panics and outcomes *)

Inductive strconv_err := ErrSyntax | ErrRange.

(** A Go [error] value: the message of [fmt.Errorf] or of a library, a
    [*strconv.NumError], or [wrapped msg err] for
    [fmt.Errorf(msg + "%s", err)]. *)
Inductive error :=
| errorString (msg : string)
| NumError (Func Num : string) (Err : strconv_err)
| wrapped (msg : string) (err : error).

Inductive panic_value :=
| nil_dereference
| index_out_of_range
| uncomparable_type
| panic_error (e : error).

(** What a call does: it returns, or the goroutine panics. *)
Inductive outcome (A : Type) : Type :=
| Return (a : A)
| Panic (p : panic_value).

Arguments Return {A} a.
Arguments Panic {A} p.

Definition returns {A} (o : outcome A) : bool :=
  match o with Return _ => true | Panic _ => false end.

(** ** Dynamic values: what an [interface{}] holds in the steps *)

#[warnings="-register-all"]
Inductive any : Type :=
| nil_value
| of_bool (b : bool)
| of_int32 (n : Z)
| of_int64 (n : Z)
| of_float64 (f : float)
| of_string (s : string)
| of_slice (l : list any)
| of_map (m : list (string * any)).

Module Reflect.

Inductive Kind := Invalid | Bool | Int32 | Int64 | Float64 | String | Slice | Map.

(** [reflect.ValueOf(v).Kind()]; the zero [Value] of a nil interface has
    kind [Invalid]. *)
Definition ValueOf_Kind (v : any) : Kind :=
  match v with
  | nil_value => Invalid
  | of_bool _ => Bool
  | of_int32 _ => Int32
  | of_int64 _ => Int64
  | of_float64 _ => Float64
  | of_string _ => String
  | of_slice _ => Slice
  | of_map _ => Map
  end.

(** [reflect.TypeOf(v).Kind()]: [TypeOf] of a nil interface is a nil
    [Type], and the method call on it panics. *)
Definition TypeOf_Kind (v : any) : outcome Kind :=
  match v with
  | nil_value => Panic nil_dereference
  | _ => Return (ValueOf_Kind v)
  end.

(** [reflect.ValueOf(v).Len()] of a slice *)
Definition ValueOf_Len (v : any) : Z :=
  match v with
  | of_slice l => Z.of_nat (length l)
  | of_map m => Z.of_nat (length m)
  | of_string s => Z.of_nat (String.length s)
  | _ => 0
  end.

End Reflect.

(** [a == b] on two interface values: equal dynamic types and equal
    values; identical uncomparable types panic. *)
Definition interface_eq (a b : any) : outcome bool :=
  match a, b with
  | nil_value, nil_value => Return true
  | of_bool x, of_bool y => Return (Bool.eqb x y)
  | of_int32 x, of_int32 y => Return (x =? y)%Z
  | of_int64 x, of_int64 y => Return (x =? y)%Z
  | of_float64 x, of_float64 y => Return (PrimFloat.eqb x y)
  | of_string x, of_string y => Return (String.eqb x y)
  | of_slice _, of_slice _ => Panic uncomparable_type
  | of_map _, of_map _ => Panic uncomparable_type
  | _, _ => Return false
  end.

(** ** Package [strconv] *)

Module Strconv.

Definition syntaxError (fn str : string) : error := NumError fn str ErrSyntax.
Definition rangeError (fn str : string) : error := NumError fn str ErrRange.

(** [strconv.ParseBool] *)
Definition ParseBool (str : string) : error + bool :=
  if bool_decide (str ∈ ["1"; "t"; "T"; "TRUE"; "true"; "True"]) then inr true
  else if bool_decide (str ∈ ["0"; "f"; "F"; "FALSE"; "false"; "False"]) then inr false
  else inl (syntaxError "ParseBool" str).

Definition maxUint64 : Z := 2 ^ 64 - 1.

Definition digit (c : ascii) : option Z :=
  let n := Z.of_N (N_of_ascii c) in
  if ((48 <=? n) && (n <=? 57))%Z then Some (n - 48)%Z else None.

(** The digit loop of [ParseUint(s, 10, 64)]: the first offending byte
    decides between a syntax and a range error. *)
Fixpoint ParseUint_loop (s : string) (n : Z) : strconv_err + Z :=
  match s with
  | EmptyString => inr n
  | String c s' =>
      match digit c with
      | None => inl ErrSyntax
      | Some d =>
          if (maxUint64 / 10 + 1 <=? n)%Z then inl ErrRange
          else
            let n1 := (n * 10 + d)%Z in
            if (maxUint64 <? n1)%Z then inl ErrRange
            else ParseUint_loop s' n1
      end
  end.

Definition ParseUint (s : string) : strconv_err + Z :=
  match s with
  | EmptyString => inl ErrSyntax
  | _ => ParseUint_loop s 0
  end.

(** [strconv.ParseInt(s, 10, 64)] *)
Definition ParseInt (s : string) : error + Z :=
  match s with
  | EmptyString => inl (syntaxError "ParseInt" s)
  | String c s' =>
      let neg := Ascii.eqb c "-" in
      let digits := if Ascii.eqb c "+" || neg then s' else s in
      match ParseUint digits with
      | inl ErrSyntax => inl (syntaxError "ParseInt" s)
      | inl ErrRange => inl (rangeError "ParseInt" s)
      | inr un =>
          let cutoff := (2 ^ 63)%Z in
          if negb neg && (cutoff <=? un)%Z then inl (rangeError "ParseInt" s)
          else if neg && (cutoff <? un)%Z then inl (rangeError "ParseInt" s)
          else inr (if neg then - un else un)%Z
      end
  end.

End Strconv.

(** ** HTTP messages and the context *)

(** [http.Header]: canonical key to values. *)
Abbreviation Header := (gmap string (list string)).

Record http_Request := mkRequest {
  req_Method : string;
  req_URL : string;
  req_RawQuery : string;
  req_Header : Header;
  req_Body : option string }.

(** [*http.Response]; [resp_Body] is what [ioutil.ReadAll(resp.Body)]
    yields. *)
Record http_Response := mkResponse {
  resp_StatusCode : Z;
  resp_Header : Header;
  resp_Body : error + string }.

Record ApiResponse := mkApiResponse {
  StatusCode : Z;
  Body : string;
  ResponseObj : http_Response }.

(** The struct [ApiContext].  The field [client] always holds the one
    [&http.Client{}] made by [New]; sending goes through the platform's
    [client_Do]. *)
Record ApiContext := mkApiContext {
  baseURL : string;
  jSONSchemasPath : string;
  debug : bool;
  headers : gmap string string;
  queryParams : gmap string string;
  lastResponse : option ApiResponse;
  lastRequest : option http_Request;
  scope : gmap string string }.

Definition defaultSchemasPath : string := "schemas".

Definition with_headers (h : gmap string string) (ctx : ApiContext) : ApiContext :=
  mkApiContext (baseURL ctx) (jSONSchemasPath ctx) (debug ctx) h (queryParams ctx)
    (lastResponse ctx) (lastRequest ctx) (scope ctx).

Definition with_queryParams (q : gmap string string) (ctx : ApiContext) : ApiContext :=
  mkApiContext (baseURL ctx) (jSONSchemasPath ctx) (debug ctx) (headers ctx) q
    (lastResponse ctx) (lastRequest ctx) (scope ctx).

Definition with_lastResponse (r : option ApiResponse) (ctx : ApiContext) : ApiContext :=
  mkApiContext (baseURL ctx) (jSONSchemasPath ctx) (debug ctx) (headers ctx) (queryParams ctx)
    r (lastRequest ctx) (scope ctx).

Definition with_lastRequest (r : option http_Request) (ctx : ApiContext) : ApiContext :=
  mkApiContext (baseURL ctx) (jSONSchemasPath ctx) (debug ctx) (headers ctx) (queryParams ctx)
    (lastResponse ctx) r (scope ctx).

Definition with_scope (sc : gmap string string) (ctx : ApiContext) : ApiContext :=
  mkApiContext (baseURL ctx) (jSONSchemasPath ctx) (debug ctx) (headers ctx) (queryParams ctx)
    (lastResponse ctx) (lastRequest ctx) sc.

(** [godog.Table]: [dt.Rows[i].Cells[j].Value] is [cell row j]. *)
Abbreviation Table := (list (list string)).

Definition cell (row : list string) (j : nat) : outcome string :=
  match row !! j with
  | Some v => Return v
  | None => Panic index_out_of_range
  end.

(** ** The platform: the libraries and the world the steps call into *)

Class Platform := {
  (** [encoding/json]: [json.Unmarshal([]byte(s), &data)] into an [interface{}] *)
  json_Unmarshal : string -> error + any;
  (** [github.com/PaesslerAG/jsonpath]: [jsonpath.Get(path, data)] *)
  jsonpath_Get : string -> any -> error + any;
  (** [strconv.ParseFloat(s, 64)] *)
  strconv_ParseFloat : string -> error + float;
  (** [regexp.MatchString(pattern, s)] *)
  regexp_MatchString : string -> string -> error + bool;
  (** the verbs [%v] and [%s] of package [fmt] on a dynamic value *)
  fmt_v : any -> string;
  fmt_s : any -> string;
  (** [isEqualJson(actual, expected)], the helper of this package; its
      file is not among the sources, so it is taken as given *)
  isEqualJson : string -> string -> error + bool;
  (** [net/http] and [net/url] *)
  http_NewRequest : string -> string -> option string -> error + http_Request;
  client_Do : http_Request -> error + http_Response;
  CanonicalMIMEHeaderKey : string -> string;
  url_ParseQuery : string -> Header;
  Values_Encode : Header -> string;
  (** files *)
  os_Open : string -> error + string;
  os_Stat_IsNotExist : string -> bool;
  ioutil_ReadFile : string -> error + string;
  (** [gojsonschema.Validate(schema, document)]: the violations found *)
  gojsonschema_Validate : string -> string -> error + list string;
  (** [mime/multipart]: a writer over an in-memory buffer *)
  multipart_Writer : Type;
  multipart_NewWriter : multipart_Writer;
  WriteField : multipart_Writer -> string -> string -> multipart_Writer * option error;
  CreateFormFile : multipart_Writer -> string -> string -> error + multipart_Writer;
  io_Copy : multipart_Writer -> string -> multipart_Writer * option error;
  FormDataContentType : multipart_Writer -> string;
  Writer_Close : multipart_Writer -> multipart_Writer * option error;
  Buffer_Bytes : multipart_Writer -> string }.

(** [h.Set(name, value)] and [h.Get(name)] of [http.Header] *)
Definition Header_Set {lib : Platform} (h : Header) (name value : string) : Header :=
  <[CanonicalMIMEHeaderKey name := [value]]> h.

Definition Header_Get {lib : Platform} (h : Header) (name : string) : string :=
  match h !! CanonicalMIMEHeaderKey name with
  | Some (v :: _) => v
  | _ => ""
  end.

(** [q.Add(name, value)] of [url.Values] *)
Definition Values_Add (q : Header) (name value : string) : Header :=
  <[name := default [] (q !! name) ++ [value]]> q.

(** ** Steps: state passing over the context, with panics *)

Definition Step (A : Type) : Type := ApiContext -> outcome (A * ApiContext).

Definition ret {A} (a : A) : Step A := fun ctx => Return (a, ctx).

Definition bind {A B} (m : Step A) (k : A -> Step B) : Step B :=
  fun ctx =>
    match m ctx with
    | Return (a, ctx') => k a ctx'
    | Panic p => Panic p
    end.

Definition get : Step ApiContext := fun ctx => Return (ctx, ctx).
Definition modify (f : ApiContext -> ApiContext) : Step unit := fun ctx => Return (tt, f ctx).
Definition panic {A} (p : panic_value) : Step A := fun _ => Panic p.
Definition lift {A} (o : outcome A) : Step A :=
  fun ctx => match o with Return a => Return (a, ctx) | Panic p => Panic p end.

Notation "'let!' x ':=' m 'in' k" := (bind m (fun x => k))
  (at level 10, x pattern, m at level 100, k at level 200).
Notation "m ';;' k" := (bind m (fun _ => k))
  (at level 100, k at level 200, right associativity).

(** [x, err := e; if err != nil { return err }] *)
Notation "'try!' x ':=' e 'in' k" :=
  (match e with inl err => ret (Some err) | inr x => k end)
  (at level 10, x pattern, e at level 100, k at level 200).

(** [if err := e; err != nil { return err }] on a call that yields only an error *)
Notation "'check!' e 'in' k" :=
  (match e with Some err => ret (Some err) | None => k end)
  (at level 10, e at level 100, k at level 200).

(** [*ctx.lastResponse]: the field is a pointer, nil until a request has
    been answered. *)
Definition deref_lastResponse : Step ApiResponse :=
  fun ctx =>
    match lastResponse ctx with
    | Some r => Return (r, ctx)
    | None => Panic nil_dereference
    end.

(** [fmt.Errorf] with the message already formatted *)
Definition Errorf (msg : string) : option error := Some (errorString msg).

(** [%d] *)
Definition fmt_d (n : Z) : string := pretty n.

Section Steps.
Context {lib : Platform}.

(** *** Construction and configuration *)

Definition New (url : string) : ApiContext :=
  mkApiContext url defaultSchemasPath false ∅ ∅ None None ∅.

Definition WithBaseURL (url : string) (ctx : ApiContext) : ApiContext :=
  mkApiContext url (jSONSchemasPath ctx) (debug ctx) (headers ctx) (queryParams ctx)
    (lastResponse ctx) (lastRequest ctx) (scope ctx).

Definition WithDebug (d : bool) (ctx : ApiContext) : ApiContext :=
  mkApiContext (baseURL ctx) (jSONSchemasPath ctx) d (headers ctx) (queryParams ctx)
    (lastResponse ctx) (lastRequest ctx) (scope ctx).

Definition WithJSONSchemasPath (path : string) (ctx : ApiContext) : ApiContext :=
  mkApiContext (baseURL ctx) path (debug ctx) (headers ctx) (queryParams ctx)
    (lastResponse ctx) (lastRequest ctx) (scope ctx).

(** [reset], the hook run before every scenario *)
Definition reset : Step unit :=
  modify (with_headers ∅) ;;
  modify (with_queryParams ∅) ;;
  modify (with_lastResponse None) ;;
  modify (with_lastRequest None).

(** *** Header and query-parameter accumulators *)

Fixpoint ISetHeadersTo_rows (rows : Table) : Step unit :=
  match rows with
  | [] => ret tt
  | row :: rows' =>
      let! name := lift (cell row 0) in
      let! value := lift (cell row 1) in
      let! ctx := get in
      modify (with_headers (<[name := ReplaceScopeVariables (scope ctx) value]> (headers ctx))) ;;
      ISetHeadersTo_rows rows'
  end.

Definition ISetHeadersTo (dt : Table) : Step (option error) :=
  ISetHeadersTo_rows dt ;; ret None.

Definition ISetHeaderWithValue (name value : string) : Step (option error) :=
  let! ctx := get in
  modify (with_headers (<[name := value]> (headers ctx))) ;;
  ret None.

Definition ISetQueryParamWithValue (name value : string) : Step (option error) :=
  let! ctx := get in
  modify (with_queryParams (<[name := ReplaceScopeVariables (scope ctx) value]> (queryParams ctx))) ;;
  ret None.

Fixpoint ISetQueryParamsTo_rows (rows : Table) : Step unit :=
  match rows with
  | [] => ret tt
  | row :: rows' =>
      let! name := lift (cell row 0) in
      let! value := lift (cell row 1) in
      let! ctx := get in
      modify (with_queryParams (<[name := ReplaceScopeVariables (scope ctx) value]> (queryParams ctx))) ;;
      ISetQueryParamsTo_rows rows'
  end.

Definition ISetQueryParamsTo (dt : Table) : Step (option error) :=
  ISetQueryParamsTo_rows dt ;; ret None.

(** *** Sending requests *)

(** [logRequest] and [logResponse] write a dump to the standard logger
    when [debug] is set; the context is not touched. *)
Definition logRequest (request : http_Request) : Step unit := ret tt.
Definition logResponse (response : http_Response) : Step unit := ret tt.

Definition with_req_Header (h : Header) (req : http_Request) : http_Request :=
  mkRequest (req_Method req) (req_URL req) (req_RawQuery req) h (req_Body req).

Definition with_req_RawQuery (q : string) (req : http_Request) : http_Request :=
  mkRequest (req_Method req) (req_URL req) q (req_Header req) (req_Body req).

(** [for name, value := range hs { req.Header.Set(name, value) }] on a
    request pointer that may be nil: the loop body dereferences it.
    Go visits the entries in an unspecified order; [map_fold] fixes one. *)
Definition range_Header_Set (req : option http_Request) (hs : gmap string string)
  : outcome (option http_Request) :=
  map_fold
    (fun name value acc =>
       match acc with
       | Return (Some r) => Return (Some (with_req_Header (Header_Set (req_Header r) name value) r))
       | Return None => Panic nil_dereference
       | Panic p => Panic p
       end)
    (Return req) hs.

(** The tail the three send steps share line for line: log, remember the
    request, send it, log, read the body, capture the response. *)
Definition send_and_capture (req : http_Request) : Step (option error) :=
  logRequest req ;;
  modify (with_lastRequest (Some req)) ;;
  try! resp := client_Do req in
  logResponse resp ;;
  try! body := resp_Body resp in
  modify (with_lastResponse (Some (mkApiResponse (resp_StatusCode resp) body resp))) ;;
  ret None.

Definition ISendRequestTo (method uri : string) : Step (option error) :=
  let! ctx := get in
  let reqURL := baseURL ctx +:+ uri in
  try! req := http_NewRequest method reqURL None in
  let! req := lift (range_Header_Set (Some req) (headers ctx)) in
  match req with
  | None => panic nil_dereference
  | Some req =>
      let q := map_fold (fun name value q => Values_Add q name value)
                 (url_ParseQuery (req_RawQuery req)) (queryParams ctx) in
      let req := with_req_RawQuery (Values_Encode q) req in
      send_and_capture req
  end.

(** The loop over the rows of the form table: [inl err] when the step
    returns [err] from inside the loop, [inr w] when the loop ends. *)
Fixpoint write_form_rows (rows : Table) (w : multipart_Writer)
  : Step (error + multipart_Writer) :=
  match rows with
  | [] => ret (inr w)
  | row :: rows' =>
      let! key := lift (cell row 0) in
      let! raw := lift (cell row 1) in
      let! ctx := get in
      let value := ReplaceScopeVariables (scope ctx) raw in
      let! typeOfField := lift (cell row 2) in
      if String.eqb typeOfField "text" then
        match WriteField w key value with
        | (_, Some err) => ret (inl err)
        | (w', None) => write_form_rows rows' w'
        end
      else if String.eqb typeOfField "file" then
        match os_Open value with
        | inl err => panic (panic_error err)
        | inr file =>
            let fileName := snd (Strings.Split value) in
            match CreateFormFile w key fileName with
            | inl err => ret (inl err)
            | inr w' =>
                match io_Copy w' file with
                | (_, Some err) => ret (inl err)
                | (w'', None) => write_form_rows rows' w''
                end
            end
        end
      else write_form_rows rows' w
  end.

Definition ISendRequestToWithFormBody (method uri : string) (requestBodyTable : Table)
  : Step (option error) :=
  let! ctx := get in
  let reqURL := baseURL ctx +:+ uri in
  let! written := write_form_rows requestBodyTable multipart_NewWriter in
  try! w := written in
  let contentType := FormDataContentType w in
  let (w, err) := Writer_Close w in
  check! err in
  try! req := http_NewRequest method reqURL (Some (Buffer_Bytes w)) in
  let req := with_req_Header (Header_Set (req_Header req) "Content-Type" contentType) req in
  let! req := lift (range_Header_Set (Some req) (headers ctx)) in
  match req with
  | None => panic nil_dereference
  | Some req => send_and_capture req
  end.

Definition ISendRequestToWithBody (method uri : string) (requestBody : string)
  : Step (option error) :=
  let! ctx := get in
  let reqURL := baseURL ctx +:+ uri in
  let jsonBody := ReplaceScopeVariables (scope ctx) requestBody in
  let created := http_NewRequest method reqURL (Some jsonBody) in
  let req := match created with inr r => Some r | inl _ => None end in
  let! req := lift (range_Header_Set req (headers ctx)) in
  match created, req with
  | inl err, _ => ret (Some err)
  | inr _, Some req => send_and_capture req
  | inr _, None => panic nil_dereference
  end.

(** *** Assertions on the captured response *)

Definition newline : string := String Strings.LF EmptyString.

Definition TheResponseCodeShouldBe (statusCode : Z) : Step (option error) :=
  let! r := deref_lastResponse in
  if negb (statusCode =? StatusCode r)%Z then
    ret (Errorf ("expected status code to be " +:+ fmt_d statusCode +:+
                 ", but actual is " +:+ fmt_d (StatusCode r) +:+ "." +:+ newline +:+
                 " Response body: " +:+ Body r))
  else ret None.

Definition TheResponseShouldBeAValidJSON : Step (option error) :=
  let! r := deref_lastResponse in
  match json_Unmarshal (Body r) with
  | inl err => ret (Some err)
  | inr _ => ret None
  end.

(** The type switch of [TheJSONPathShouldHaveValue]: the expected text
    parsed according to the kind of the actual value. *)
Definition parse_expected (k : Reflect.Kind) (expectedValue : string) : error + any :=
  match k with
  | Reflect.Bool =>
      match Strconv.ParseBool expectedValue with
      | inl err => inl err
      | inr b => inr (of_bool b)
      end
  | Reflect.Float64 =>
      match strconv_ParseFloat expectedValue with
      | inl err => inl err
      | inr f => inr (of_float64 f)
      end
  | Reflect.Int32 =>
      match Strconv.ParseInt expectedValue with
      | inl err => inl err
      | inr n => inr (of_int64 n)
      end
  | Reflect.Int64 =>
      match Strconv.ParseInt expectedValue with
      | inl err => inl err
      | inr n => inr (of_int64 n)
      end
  | _ => inr (of_string expectedValue)
  end.

Definition TheJSONPathShouldHaveValue (pathExpr expectedValue : string) : Step (option error) :=
  let! ctx := get in
  let expectedValue := ReplaceScopeVariables (scope ctx) expectedValue in
  let! r := deref_lastResponse in
  try! jsonData := json_Unmarshal (Body r) in
  try! actualValue := jsonpath_Get pathExpr jsonData in
  let! k := lift (Reflect.TypeOf_Kind actualValue) in
  try! expectedParsedValue := parse_expected k expectedValue in
  let! same := lift (interface_eq actualValue expectedParsedValue) in
  if negb same then
    ret (Errorf ("expected json path to have value " +:+ fmt_v expectedParsedValue +:+
                 " but it is " +:+ fmt_v actualValue))
  else ret None.

Definition TheJSONPathShouldMatch (pathExpr pattern : string) : Step (option error) :=
  let! r := deref_lastResponse in
  try! jsonData := json_Unmarshal (Body r) in
  try! value := jsonpath_Get pathExpr jsonData in
  let matched :=
    match value with
    | of_string v => regexp_MatchString pattern v
    | v => regexp_MatchString pattern (fmt_v v)
    end in
  try! matched := matched in
  if negb matched then
    ret (Errorf (fmt_s value +:+ " does not match: " +:+ pattern))
  else ret None.

Definition TheJSONPathShouldBePresent (pathExpr : string) : Step (option error) :=
  let! r := deref_lastResponse in
  try! jsonData := json_Unmarshal (Body r) in
  try! value := jsonpath_Get pathExpr jsonData in
  match value with
  | nil_value =>
      ret (Errorf ("the json path " +:+ pathExpr +:+ " was not present in the response"))
  | _ => ret None
  end.

Definition Kind_is_Slice (k : Reflect.Kind) : bool :=
  match k with Reflect.Slice => true | _ => false end.

Definition TheJSONPathHaveCount (pathExpr : string) (expectedCount : Z) : Step (option error) :=
  let! r := deref_lastResponse in
  try! jsonData := json_Unmarshal (Body r) in
  try! value := jsonpath_Get pathExpr jsonData in
  if negb (Kind_is_Slice (Reflect.ValueOf_Kind value)) then
    ret (Errorf ("the json path " +:+ pathExpr +:+ " is not an array. Found " +:+ fmt_v value))
  else if negb (Reflect.ValueOf_Len value =? expectedCount)%Z then
    ret (Errorf ("the value " +:+ fmt_v value +:+ " doenst have count " +:+
                 fmt_d expectedCount +:+ " but " +:+ fmt_d (Reflect.ValueOf_Len value)))
  else ret None.

Definition TheResponseShouldMatchJSON (body : string) : Step (option error) :=
  let! r := deref_lastResponse in
  let actual := Strings.Trim (Body r) Strings.LF in
  let! ctx := get in
  let expected := ReplaceScopeVariables (scope ctx) body in
  try! matched := isEqualJson actual expected in
  if negb matched then
    ret (Errorf ("expected json " +:+ expected +:+ ", does not match actual: " +:+ actual))
  else ret None.

Definition TheResponseBodyShouldContain (s : string) : Step (option error) :=
  let! r := deref_lastResponse in
  let bodyContent := Strings.Trim (Body r) Strings.LF in
  let! ctx := get in
  if negb (Strings.Contains bodyContent (ReplaceScopeVariables (scope ctx) s)) then
    ret (Errorf (bodyContent +:+ " does not contain " +:+ s))
  else ret None.

Definition TheResponseBodyShouldMatch (pattern : string) : Step (option error) :=
  let! r := deref_lastResponse in
  let bodyContents := Body r in
  try! matched := regexp_MatchString pattern bodyContents in
  if negb matched then
    ret (Errorf (bodyContents +:+ " does not match pattern: " +:+ pattern))
  else ret None.

(** [%v] of a [[]string] *)
Definition fmt_v_strings (l : list string) : string :=
  "[" +:+ Strings.Join l " " +:+ "]".

Definition TheResponseShouldMatchJsonSchema (path : string) : Step (option error) :=
  let path := Strings.Trim path Strings.slash in
  let! ctx := get in
  let schemaPath := jSONSchemasPath ctx +:+ "/" +:+ path in
  if os_Stat_IsNotExist schemaPath then
    ret (Errorf ("JSON schema file does not exist: " +:+ schemaPath))
  else
    match ioutil_ReadFile schemaPath with
    | inl err =>
        ret (Some (wrapped "cannot open json schema file: " err))
    | inr schemaContents =>
        let! r := deref_lastResponse in
        try! schemaErrors := gojsonschema_Validate schemaContents (Body r) in
        match schemaErrors with
        | [] => ret None
        | _ =>
            ret (Errorf ("the response is not valid according to the specified schema " +:+
                         path +:+ newline +:+ " " +:+ fmt_v_strings schemaErrors))
        end
    end.

Definition TheResponseHeaderShouldHaveValue (name expectedValue : string) : Step (option error) :=
  let! r := deref_lastResponse in
  let actualValue := Header_Get (resp_Header (ResponseObj r)) name in
  let! ctx := get in
  if negb (String.eqb actualValue (ReplaceScopeVariables (scope ctx) expectedValue)) then
    ret (Errorf ("expected header to have value " +:+ expectedValue +:+
                 ". actual : " +:+ actualValue))
  else ret None.

(** *** The scope store *)

Definition StoreScopeData (scopeKeyName value : string) : Step (option error) :=
  let! ctx := get in
  modify (with_scope (<[scopeKeyName := value]> (scope ctx))) ;;
  ret None.


Definition StoreJsonPathValue (pathExpr scopeKeyName : string) : Step (option error) :=
  let! r := deref_lastResponse in
  try! jsonData := json_Unmarshal (Body r) in
  try! actualValue := jsonpath_Get pathExpr jsonData in
  let! ctx := get in
  match actualValue with
  | of_string v => modify (with_scope (<[scopeKeyName := v]> (scope ctx))) ;; ret None
  | v => modify (with_scope (<[scopeKeyName := fmt_v v]> (scope ctx))) ;; ret None
  end.

Definition TheScopeVariableShouldHaveValue (scopeKeyName expectedValue : string)
  : Step (option error) :=
  let! ctx := get in
  if negb (String.eqb (map_get (scope ctx) scopeKeyName) expectedValue) then
    ret (Errorf ("expected scope variable to have value " +:+ expectedValue +:+
                 ". actual : " +:+ map_get (scope ctx) scopeKeyName))
  else ret None.

End Steps.

(** ** A reference platform

    Small executable stand-ins for the libraries, used to run the steps
    on concrete scenarios: a JSON decoder, a path evaluator for [$] and
    [$.name.name...], a decimal [ParseFloat], an HTTP server given as a
    function and a file system given as a map. *)

Module Reference.

Definition dq : ascii := "034"%char.
Definition quoted (s : string) : string := String dq (s +:+ String dq EmptyString).

(** Leading decimal digits of [s], accumulated onto [acc]: the value,
    how many digits were read, and the rest. *)
Fixpoint digits (s : string) (acc : Z) (n : nat) : Z * nat * string :=
  match s with
  | EmptyString => (acc, n, s)
  | String c s' =>
      match Strconv.digit c with
      | Some d => digits s' (acc * 10 + d)%Z (S n)
      | None => (acc, n, s)
      end
  end.

Definition float_of_Z (z : Z) : float := PrimFloat.of_uint63 (Uint63.of_Z z).

(** Decimal literals [-ddd.ddd] of at most 15 digits: mantissa and power
    of ten are exact in binary64, so one division rounds correctly.
    Everything else is rejected by this stand-in. *)
Definition ParseFloat (s : string) : error + float :=
  let bad := inl (Strconv.syntaxError "ParseFloat" s) in
  let '(neg, body) :=
    match s with
    | String c s' => if Ascii.eqb c "-" then (true, s') else (false, s)
    | EmptyString => (false, s)
    end in
  let '(ip, ni, r1) := digits body 0 0 in
  let '(m, nf, r2) :=
    match r1 with
    | String c r => if Ascii.eqb c "." then digits r ip 0 else (ip, 0%nat, r1)
    | EmptyString => (ip, 0%nat, r1)
    end in
  match r2 with
  | EmptyString =>
      if ((ni + nf =? 0)%nat || (15 <? ni + nf)%nat || ((ni =? 0)%nat && (nf =? 0)%nat)) then bad
      else
        let f := PrimFloat.div (float_of_Z m) (float_of_Z (10 ^ Z.of_nat nf)) in
        inr (if neg then PrimFloat.opp f else f)
  | _ => bad
  end.

Definition is_space (c : ascii) : bool :=
  Ascii.eqb c " " || Ascii.eqb c Strings.LF || Ascii.eqb c "009" || Ascii.eqb c "013".

Fixpoint skip_ws (s : string) : string :=
  match s with
  | String c s' => if is_space c then skip_ws s' else s
  | EmptyString => s
  end.

(** The text of a string literal up to its closing quote (no escapes). *)
Fixpoint string_body (s : string) : option (string * string) :=
  match s with
  | EmptyString => None
  | String c s' =>
      if Ascii.eqb c dq then Some (EmptyString, s')
      else match string_body s' with
           | Some (t, r) => Some (String c t, r)
           | None => None
           end
  end.

Definition is_number_byte (c : ascii) : bool :=
  match Strconv.digit c with
  | Some _ => true
  | None => Ascii.eqb c "-" || Ascii.eqb c "+" || Ascii.eqb c "." || Ascii.eqb c "e" || Ascii.eqb c "E"
  end.

Fixpoint number_text (s : string) : string * string :=
  match s with
  | String c s' =>
      if is_number_byte c then let (t, r) := number_text s' in (String c t, r)
      else (EmptyString, s)
  | EmptyString => (EmptyString, s)
  end.

Definition literal (word : string) (v : any) (s : string) : option (any * string) :=
  if Strings.HasPrefix s word then Some (v, Strings.drop (String.length word) s) else None.

Fixpoint decode_value (fuel : nat) (s : string) : option (any * string) :=
  match fuel with
  | O => None
  | S fuel =>
      match skip_ws s with
      | EmptyString => None
      | String c rest as s0 =>
          if Ascii.eqb c "[" then
            match skip_ws rest with
            | String d r => if Ascii.eqb d "]" then Some (of_slice [], r)
                            else decode_elements fuel rest []
            | EmptyString => None
            end
          else if Ascii.eqb c "{" then
            match skip_ws rest with
            | String d r => if Ascii.eqb d "}" then Some (of_map [], r)
                            else decode_members fuel rest []
            | EmptyString => None
            end
          else if Ascii.eqb c dq then
            match string_body rest with
            | Some (t, r) => Some (of_string t, r)
            | None => None
            end
          else if Ascii.eqb c "t" then literal "true" (of_bool true) s0
          else if Ascii.eqb c "f" then literal "false" (of_bool false) s0
          else if Ascii.eqb c "n" then literal "null" nil_value s0
          else
            let (t, r) := number_text s0 in
            match ParseFloat t with
            | inr f => Some (of_float64 f, r)
            | inl _ => None
            end
      end
  end
with decode_elements (fuel : nat) (s : string) (acc : list any) : option (any * string) :=
  match fuel with
  | O => None
  | S fuel =>
      match decode_value fuel s with
      | Some (v, r) =>
          match skip_ws r with
          | String c r' =>
              if Ascii.eqb c "," then decode_elements fuel r' (v :: acc)
              else if Ascii.eqb c "]" then Some (of_slice (rev (v :: acc)), r')
              else None
          | EmptyString => None
          end
      | None => None
      end
  end
with decode_members (fuel : nat) (s : string) (acc : list (string * any)) : option (any * string) :=
  match fuel with
  | O => None
  | S fuel =>
      match skip_ws s with
      | String q s1 =>
          if Ascii.eqb q dq then
            match string_body s1 with
            | Some (key, s2) =>
                match skip_ws s2 with
                | String colon s3 =>
                    if Ascii.eqb colon ":" then
                      match decode_value fuel s3 with
                      | Some (v, r) =>
                          match skip_ws r with
                          | String c r' =>
                              if Ascii.eqb c "," then decode_members fuel r' ((key, v) :: acc)
                              else if Ascii.eqb c "}" then Some (of_map (rev ((key, v) :: acc)), r')
                              else None
                          | EmptyString => None
                          end
                      | None => None
                      end
                    else None
                | EmptyString => None
                end
            | None => None
            end
          else None
      | EmptyString => None
      end
  end.

Definition Unmarshal (s : string) : error + any :=
  match decode_value (S (String.length s)) s with
  | Some (v, r) =>
      match skip_ws r with
      | EmptyString => inr v
      | _ => inl (errorString "invalid character after top-level value")
      end
  | None => inl (errorString "unexpected end of JSON input")
  end.

(** Path expressions [$] and [$.name.name...]: the names after the root. *)
Fixpoint split_names (s : string) : list string :=
  match s with
  | EmptyString => [EmptyString]
  | String c s' =>
      if Ascii.eqb c "." then EmptyString :: split_names s'
      else match split_names s' with
           | n :: ns => String c n :: ns
           | [] => [String c EmptyString]
           end
  end.

Fixpoint lookup_member (name : string) (m : list (string * any)) : option any :=
  match m with
  | [] => None
  | (k, v) :: m' => if String.eqb k name then Some v else lookup_member name m'
  end.

Fixpoint select (names : list string) (v : any) : error + any :=
  match names with
  | [] => inr v
  | name :: names' =>
      match v with
      | of_map m =>
          match lookup_member name m with
          | Some v' => select names' v'
          | None => inl (errorString ("unknown key " +:+ name))
          end
      | _ => inl (errorString ("unsupported value type for select, expected map"))
      end
  end.

Definition Get (path : string) (v : any) : error + any :=
  match split_names path with
  | root :: names =>
      if String.eqb root "$" then select names v
      else inl (errorString "parsing error: unsupported path")
  | [] => inl (errorString "parsing error: empty path")
  end.

(** [%v] of the scalars; composite values and numbers print as a tag. *)
Definition print_v (v : any) : string :=
  match v with
  | nil_value => "<nil>"
  | of_bool true => "true"
  | of_bool false => "false"
  | of_string s => s
  | of_int32 n | of_int64 n => pretty n
  | of_float64 _ => "<float64>"
  | of_slice _ => "<slice>"
  | of_map _ => "<map>"
  end.

Fixpoint any_eqb (a b : any) {struct a} : bool :=
  match a, b with
  | nil_value, nil_value => true
  | of_bool x, of_bool y => Bool.eqb x y
  | of_int32 x, of_int32 y | of_int64 x, of_int64 y => (x =? y)%Z
  | of_float64 x, of_float64 y => PrimFloat.eqb x y
  | of_string x, of_string y => String.eqb x y
  | of_slice l, of_slice l' =>
      (fix all2 (l : list any) (l' : list any) : bool :=
         match l, l' with
         | [], [] => true
         | x :: l, y :: l' => any_eqb x y && all2 l l'
         | _, _ => false
         end) l l'
  | of_map m, of_map m' =>
      (fix all2 (m : list (string * any)) (m' : list (string * any)) : bool :=
         match m, m' with
         | [], [] => true
         | (k, x) :: m, (k', y) :: m' => String.eqb k k' && any_eqb x y && all2 m m'
         | _, _ => false
         end) m m'
  | _, _ => false
  end.

(** Both documents decoded and compared member by member, in order. *)
Definition equal_json (actual expected : string) : error + bool :=
  match Unmarshal actual, Unmarshal expected with
  | inr a, inr e => inr (any_eqb a e)
  | inl err, _ => inl err
  | _, inl err => inl err
  end.

(** [http.NewRequest] rejects a method that is not a token; here: one
    that contains a space. *)
Definition NewRequest (method url : string) (body : option string) : error + http_Request :=
  if Strings.has_byte " " method then inl (errorString ("net/http: invalid method " +:+ quoted method))
  else inr (mkRequest method url EmptyString ∅ body).

(** A multipart writer as the list of its parts: name, file name, content. *)
Definition Parts : Type := list (string * string * string).

Definition Copy (w : Parts) (content : string) : Parts * option error :=
  match rev w with
  | (k, f, c) :: before => (rev ((k, f, c +:+ content) :: before), None)
  | [] => (w, None)
  end.

Definition render (w : Parts) : string :=
  Strings.Join (map (fun '(k, f, c) => k +:+ "=" +:+ c) w) "&".

(** The platform over a server and a file system. *)
Definition platform (server : http_Request -> error + http_Response)
    (files : gmap string string) : Platform := {|
  json_Unmarshal := Unmarshal;
  jsonpath_Get := Get;
  strconv_ParseFloat := ParseFloat;
  regexp_MatchString := fun pattern s => inr (Strings.Contains s pattern);
  fmt_v := print_v;
  fmt_s := print_v;
  isEqualJson := equal_json;
  http_NewRequest := NewRequest;
  client_Do := server;
  CanonicalMIMEHeaderKey := fun name => name;
  url_ParseQuery := fun _ => ∅;
  Values_Encode := fun q =>
    Strings.Join (map (fun '(k, vs) => k +:+ "=" +:+ Strings.Join vs ",") (map_to_list q)) "&";
  os_Open := fun name =>
    match files !! name with
    | Some content => inr content
    | None => inl (errorString ("open " +:+ name +:+ ": no such file or directory"))
    end;
  os_Stat_IsNotExist := fun name => bool_decide (files !! name = None);
  ioutil_ReadFile := fun name =>
    match files !! name with
    | Some content => inr content
    | None => inl (errorString ("open " +:+ name +:+ ": no such file or directory"))
    end;
  gojsonschema_Validate := fun schema document =>
    match Unmarshal document with
    | inr _ => inr []
    | inl err => inl err
    end;
  multipart_Writer := Parts;
  multipart_NewWriter := [];
  WriteField := fun w key value => (w ++ [(key, EmptyString, value)], None);
  CreateFormFile := fun w key fileName => inr (w ++ [(key, fileName, EmptyString)]);
  io_Copy := Copy;
  FormDataContentType := fun _ => "multipart/form-data; boundary=reference";
  Writer_Close := fun w => (w, None);
  Buffer_Bytes := render |}.

(** The body of the spec's example and a server that answers every
    request with it. *)
Definition json_path_body : string :=
  "{" +:+ quoted "a" +:+ ":" +:+ quoted "a" +:+ "," +:+ quoted "b" +:+ ":2," +:+
  quoted "c" +:+ ":3.5," +:+ quoted "d" +:+ ":true}".

Definition serve (body : string) (_ : http_Request) : error + http_Response :=
  inr (mkResponse 200 ∅ (inr body)).

Definition offline (_ : http_Request) : error + http_Response :=
  inl (errorString "dial tcp: connection refused").

(** The platform whose server answers with the body of the example. *)
Definition fixture : Platform := platform (serve json_path_body) ∅.

(** The context after [New] and a GET answered with [body]. *)
Definition after_get (body : string) : ApiContext :=
  match ISendRequestTo (lib := platform (serve body) ∅) "GET" "/" (New "https://example.com") with
  | Return (_, ctx) => ctx
  | Panic _ => New "https://example.com"
  end.

End Reference.

(** ** Statements about substitution *)

Module Resolve.
Import Strings Regexp.

(** No match of the pattern anywhere in [data]. *)
Definition no_match (data : string) : Prop :=
  forall pre key post, ~ matches_at data pre key post.

(** The match the scan settles on: no match starts before it, and the
    lazy group ends at the first backtick. *)
Definition leftmost_match (data pre key post : string) : Prop :=
  matches_at data pre key post /\
  has_byte backtick key = false /\
  forall pre' key' post',
    matches_at data pre' key' post' -> (String.length pre <= String.length pre')%nat.

(** The spec's reading: a reference is a key name between the markers;
    [allow_empty] says whether the empty name counts as a key name. *)
Definition reference_at (allow_empty : bool) (data pre key post : string) : Prop :=
  data = pre +:+ "`##" +:+ key +:+ String backtick post /\
  has_byte backtick key = false /\
  has_byte LF key = false /\
  (allow_empty = false -> key <> "").

Definition first_reference (allow_empty : bool) (data pre key post : string) : Prop :=
  reference_at allow_empty data pre key post /\
  forall pre' key' post',
    reference_at allow_empty data pre' key' post' ->
    (String.length pre <= String.length pre')%nat.

(** "For every input string, resolve replaces exactly the first
    occurrence of a reference with the stored value of its key." *)
Definition replaces_first_reference (allow_empty : bool) : Prop :=
  forall (scope : gmap string string) data pre key post,
    first_reference allow_empty data pre key post ->
    ReplaceScopeVariables scope data = pre +:+ map_get scope key +:+ post.

End Resolve.

(** ** Statements about steps *)

(** The step returned an error value to the runner. *)
Definition returns_error (o : outcome (option error * ApiContext)) : Prop :=
  exists err ctx', o = Return (Some err, ctx').

(** "An assertion step run before any response was captured fails with
    an error of its own." *)
Definition fails_without_response (step : Step (option error)) : Prop :=
  forall ctx, lastResponse ctx = None -> returns_error (step ctx).

(** The value of the last row of a table that sets [name]. *)
Fixpoint last_value (name : string) (rows : Table) : option string :=
  match rows with
  | [] => None
  | row :: rows' =>
      match last_value name rows' with
      | Some v => Some v
      | None =>
          match row with
          | n :: v :: _ => if String.eqb n name then Some v else None
          | _ => None
          end
      end
  end.

(** A table whose rows all have a name cell and a value cell. *)
Definition two_columns (dt : Table) : Prop :=
  Forall (fun row : list string => (2 <= length row)%nat) dt.

(** The accumulator after the rows of a table were written into it. *)
Fixpoint set_rows (sc : gmap string string) (rows : Table) (acc : gmap string string)
  : gmap string string :=
  match rows with
  | [] => acc
  | row :: rows' =>
      match row with
      | n :: v :: _ => set_rows sc rows' (<[n := ReplaceScopeVariables sc v]> acc)
      | _ => set_rows sc rows' acc
      end
  end.

(** The step succeeds exactly when [P] holds, and returns an error
    made by [fmt.Errorf] when it does not. *)
Definition succeeds_iff (o : outcome (option error * ApiContext)) (ctx : ApiContext)
    (P : Prop) : Prop :=
  (o = Return (None, ctx) <-> P) /\
  (~ P -> exists msg, o = Return (Errorf msg, ctx)).


(** ** The step phrases of [InitializeScenario]

    Every registered expression starts with the anchor of the start
    and is built from literal text and three groups: a run of bytes
    other than the double quote, between double quotes or bare, and a
    run of one or more digits.  godog offers a step text to [FindStringSubmatch] of each expression
    and hands the groups to the step function. *)

Module Registry.
Import Strings.

Definition dq : ascii := "034"%char.

(** [s] between double quotes *)
Definition quoted (s : string) : string := String dq (s +:+ String dq EmptyString).

Inductive item : Type :=
| Lit (l : string)
| Quoted        (* a group of non-quote bytes between double quotes *)
| Unquoted      (* a group of non-quote bytes *)
| Digits.       (* a group of one or more digits *)

(** An expression: its items after the anchor of the start, and whether
    it ends with the anchor of the end. *)
Record pattern : Type := mkPattern {
  items : list item;
  anchored_end : bool }.

Definition not_quote (c : ascii) : bool := negb (Ascii.eqb c dq).

Definition is_digit (c : ascii) : bool :=
  match Strconv.digit c with
  | Some _ => true
  | None => false
  end.

(** The longest prefix of [s] whose bytes are all in the class, and the
    rest. *)
Fixpoint span (class : ascii -> bool) (s : string) : string * string :=
  match s with
  | String c s' =>
      if class c then let (a, b) := span class s' in (String c a, b)
      else (EmptyString, s)
  | EmptyString => (EmptyString, EmptyString)
  end.

(** The groups of the match of the items at the start of [s]; with
    [anchored] the match has to end where [s] ends.  A starred class
    takes all it can. *)
Fixpoint match_items (its : list item) (anchored : bool) (s : string)
  : option (list string) :=
  match its with
  | [] =>
      if anchored then match s with EmptyString => Some [] | _ => None end
      else Some []
  | Lit l :: its' =>
      if HasPrefix s l then match_items its' anchored (drop (String.length l) s)
      else None
  | Quoted :: its' =>
      match s with
      | String q s' =>
          if Ascii.eqb q dq then
            match span not_quote s' with
            | (body, String _ rest) =>
                match match_items its' anchored rest with
                | Some groups => Some (body :: groups)
                | None => None
                end
            | (_, EmptyString) => None
            end
          else None
      | EmptyString => None
      end
  | Unquoted :: its' =>
      let (body, rest) := span not_quote s in
      match match_items its' anchored rest with
      | Some groups => Some (body :: groups)
      | None => None
      end
  | Digits :: its' =>
      match span is_digit s with
      | (EmptyString, _) => None
      | (digits, rest) =>
          match match_items its' anchored rest with
          | Some groups => Some (digits :: groups)
          | None => None
          end
      end
  end.

(** [re.FindStringSubmatch(text)] without the whole match: the groups. *)
Definition groups_of (p : pattern) (text : string) : option (list string) :=
  match_items (items p) (anchored_end p) text.

(** The greedy scan is the match of the expression when a starred
    class is followed by something it cannot take: the bare group by
    the end of the text, the digits by the end or by a literal that
    does not start with a digit. *)
Fixpoint well_formed (anchored : bool) (its : list item) : bool :=
  match its with
  | [] => true
  | Lit _ :: its' | Quoted :: its' => well_formed anchored its'
  | Unquoted :: its' =>
      match its' with
      | [] => anchored
      | _ => false
      end
  | Digits :: its' =>
      match its' with
      | [] => anchored
      | Lit (String c _) :: _ => negb (is_digit c) && well_formed anchored its'
      | _ => false
      end
  end.

Fixpoint all_in (class : ascii -> bool) (s : string) : bool :=
  match s with
  | EmptyString => true
  | String c s' => class c && all_in class s'
  end.

(** The text an expression accepts with the given groups. *)
Fixpoint render (its : list item) (groups : list string) : option string :=
  match its, groups with
  | [], [] => Some EmptyString
  | [], _ :: _ => None
  | Lit l :: its', _ =>
      match render its' groups with
      | Some t => Some (l +:+ t)
      | None => None
      end
  | Quoted :: its', g :: groups' =>
      if all_in not_quote g then
        match render its' groups' with
        | Some t => Some (quoted g +:+ t)
        | None => None
        end
      else None
  | Unquoted :: its', g :: groups' =>
      if all_in not_quote g then
        match render its' groups' with
        | Some t => Some (g +:+ t)
        | None => None
        end
      else None
  | Digits :: its', g :: groups' =>
      match g with
      | EmptyString => None
      | _ =>
          if all_in is_digit g then
            match render its' groups' with
            | Some t => Some (g +:+ t)
            | None => None
            end
          else None
      end
  | _ :: _, [] => None
  end.

(** Nothing of the class at the start of [b]. *)
Definition stops (class : ascii -> bool) (b : string) : bool :=
  match b with
  | EmptyString => true
  | String c _ => negb (class c)
  end.

(** Two literals that differ at a byte both have. *)
Fixpoint clash (l1 l2 : string) : bool :=
  match l1, l2 with
  | String a r1, String b r2 => if Ascii.eqb a b then clash r1 r2 else true
  | _, _ => false
  end.

(** A sufficient check that no text is matched by both lists of items:
    they go the same way up to two literals that clash, or up to the
    anchored end of one where the other goes on with a literal. *)
Fixpoint disjoint (a1 a2 : bool) (its1 its2 : list item) : bool :=
  match its1, its2 with
  | Lit l1 :: r1, Lit l2 :: r2 =>
      if String.eqb l1 l2 then disjoint a1 a2 r1 r2 else clash l1 l2
  | Quoted :: r1, Quoted :: r2 => disjoint a1 a2 r1 r2
  | Unquoted :: r1, Unquoted :: r2 => disjoint a1 a2 r1 r2
  | Digits :: r1, Digits :: r2 => disjoint a1 a2 r1 r2
  | [], Lit (String _ _) :: _ => a1
  | Lit (String _ _) :: _, [] => a2
  | _, _ => false
  end.

Fixpoint pairwise_disjoint {A : Type} (ps : list (pattern * A)) : bool :=
  match ps with
  | [] => true
  | (p, _) :: ps' =>
      forallb (fun '(q, _) =>
                 disjoint (anchored_end p) (anchored_end q) (items p) (items q)) ps'
      && pairwise_disjoint ps'
  end.

(** What a registered expression gives for a step text: the step
    function it is registered for, with the groups of the match. *)
Definition accepts {A : Type} (text : string) (e : pattern * A)
  : option (A * list string) :=
  let '(p, h) := e in
  match groups_of p text with
  | Some groups => Some (h, groups)
  | None => None
  end.

(** The step functions an expression is registered for. *)
Inductive handler : Type :=
| to_ISetHeaderWithValue
| to_ISetHeadersTo
| to_ISendRequestToWithFormBody
| to_ISendRequestToWithBody
| to_ISendRequestTo
| to_ISetQueryParamWithValue
| to_ISetQueryParamsTo
| to_TheResponseCodeShouldBe
| to_TheResponseShouldBeAValidJSON
| to_TheResponseShouldMatchJSON
| to_TheResponseHeaderShouldHaveValue
| to_TheResponseShouldMatchJsonSchema
| to_TheJSONPathShouldHaveValue
| to_TheJSONPathShouldMatch
| to_TheJSONPathHaveCount
| to_TheJSONPathShouldBePresent
| to_TheResponseBodyShouldContain
| to_TheResponseBodyShouldMatch
| to_WaitForSomeTime
| to_StoreScopeData
| to_StoreResponseHeader
| to_StoreJsonPathValue
| to_TheScopeVariableShouldHaveValue.

Definition quote : string := String dq EmptyString.

(** The calls [s.Step(expr, fn)] of [InitializeScenario], in order. *)
Definition steps : list (pattern * handler) :=
  [ (mkPattern [Lit "I set header "; Quoted; Lit " with value "; Quoted] true,
     to_ISetHeaderWithValue);
    (mkPattern [Lit "I set headers to:"] true, to_ISetHeadersTo);
    (mkPattern [Lit "I send "; Quoted; Lit " request to "; Quoted; Lit " with form body::"] true,
     to_ISendRequestToWithFormBody);
    (mkPattern [Lit "I send "; Quoted; Lit " request to "; Quoted; Lit " with body:"] true,
     to_ISendRequestToWithBody);
    (mkPattern [Lit "I send "; Quoted; Lit " request to "; Quoted] true, to_ISendRequestTo);
    (mkPattern [Lit "I set query param "; Quoted; Lit " with value "; Quoted] true,
     to_ISetQueryParamWithValue);
    (mkPattern [Lit "I set query params to:"] true, to_ISetQueryParamsTo);
    (mkPattern [Lit "The response code should be "; Digits] true, to_TheResponseCodeShouldBe);
    (mkPattern [Lit "The response should be a valid json"] true,
     to_TheResponseShouldBeAValidJSON);
    (mkPattern [Lit "The response should match json:"] true, to_TheResponseShouldMatchJSON);
    (mkPattern [Lit "The response header "; Quoted; Lit " should have value "; Unquoted] true,
     to_TheResponseHeaderShouldHaveValue);
    (mkPattern [Lit "The response should match json schema "; Quoted] true,
     to_TheResponseShouldMatchJsonSchema);
    (mkPattern [Lit "The json path "; Quoted; Lit " should have value "; Quoted] true,
     to_TheJSONPathShouldHaveValue);
    (mkPattern [Lit "The json path "; Quoted; Lit " should match "; Quoted] true,
     to_TheJSONPathShouldMatch);
    (mkPattern [Lit "The json path "; Quoted; Lit " should have count "; Quoted] true,
     to_TheJSONPathHaveCount);
    (mkPattern [Lit "The json path "; Quoted; Lit " should be present"; Lit quote] true,
     to_TheJSONPathShouldBePresent);
    (mkPattern [Lit "The response body should contain "; Quoted] true,
     to_TheResponseBodyShouldContain);
    (mkPattern [Lit "The response body should match "; Quoted] true,
     to_TheResponseBodyShouldMatch);
    (mkPattern [Lit "I wait for "; Digits; Lit " seconds"] true, to_WaitForSomeTime);
    (mkPattern [Lit "I store data in scope variable "; Quoted; Lit " with value "; Quoted] false,
     to_StoreScopeData);
    (mkPattern [Lit "I store the value of response header "; Quoted; Lit " as "; Quoted;
                Lit " in scenario scope"] true,
     to_StoreResponseHeader);
    (mkPattern [Lit "I store the value of body path "; Quoted; Lit " as "; Quoted;
                Lit " in scenario scope"] true,
     to_StoreJsonPathValue);
    (mkPattern [Lit "The scope variable "; Quoted; Lit " should have value "; Quoted] true,
     to_TheScopeVariableShouldHaveValue) ].

(** The registered steps whose expression matches [text], with the
    groups of the match. *)
Definition matching (text : string) : list (handler * list string) :=
  omap (accepts text) steps.

End Registry.

(** ** Statements about the rest of the code *)

(** [sub] occurs in [s]. *)
Definition occurs_in (sub s : string) : Prop :=
  exists pre post, s = pre +:+ sub +:+ post.

(** The reference to [key] as it is written in a step argument. *)
Definition reference_to (key : string) : string := "`##" +:+ key +:+ "`".

(** A key that can be written between the markers: not empty, and free
    of backticks and line feeds. *)
Definition key_name (key : string) : Prop :=
  key <> "" /\
  Strings.has_byte Strings.backtick key = false /\
  Strings.has_byte Strings.LF key = false.

(** Two contexts that differ at most in the captured request and
    response. *)
Definition same_settings (ctx ctx' : ApiContext) : Prop :=
  baseURL ctx' = baseURL ctx /\
  jSONSchemasPath ctx' = jSONSchemasPath ctx /\
  debug ctx' = debug ctx /\
  headers ctx' = headers ctx /\
  queryParams ctx' = queryParams ctx /\
  scope ctx' = scope ctx.

(** The name cell of a table row. *)
Definition row_name (row : list string) : string := nth 0 row "".

(** [req'] is [req] with the accumulated headers [hs] written into it:
    each header sits under its canonical key when no other accumulated
    name shares that key, and the keys no accumulated name maps to are
    as in [req]. *)
Definition with_accumulated_headers {lib : Platform} (hs : gmap string string)
    (req req' : http_Request) : Prop :=
  req_Method req' = req_Method req /\
  req_URL req' = req_URL req /\
  req_RawQuery req' = req_RawQuery req /\
  req_Body req' = req_Body req /\
  (forall name v,
     hs !! name = Some v ->
     (forall name', is_Some (hs !! name') ->
        CanonicalMIMEHeaderKey name' = CanonicalMIMEHeaderKey name -> name' = name) ->
     req_Header req' !! CanonicalMIMEHeaderKey name = Some [v]) /\
  (forall key,
     (forall name, is_Some (hs !! name) -> CanonicalMIMEHeaderKey name <> key) ->
     req_Header req' !! key = req_Header req !! key).



(** The text a dynamic value is stored and matched as: a string as it
    is, anything else as [%v] prints it. *)
Definition text_of {lib : Platform} (v : any) : string :=
  match v with
  | of_string s => s
  | _ => fmt_v v
  end.

(** The spellings [strconv.ParseBool] reads as [b]. *)
Definition spellings (b : bool) : list string :=
  if b then ["1"; "t"; "T"; "TRUE"; "true"; "True"]
  else ["0"; "f"; "F"; "FALSE"; "false"; "False"].

(** * Properties *)

(** ** Byte strings *)

Module StringFacts.
Import Strings.

Lemma app_nil_l (s : string) : "" +:+ s = s.
Proof. reflexivity. Qed.

Lemma app_cons (c : ascii) (s t : string) : String c s +:+ t = String c (s +:+ t).
Proof. reflexivity. Qed.

Lemma app_nil_r (s : string) : s +:+ "" = s.
Proof. induction s as [|c s IH]; [reflexivity|]. rewrite app_cons, IH. reflexivity. Qed.

Lemma app_assoc (s t u : string) : (s +:+ t) +:+ u = s +:+ t +:+ u.
Proof.
  induction s as [|c s IH]; [reflexivity|].
  rewrite !app_cons, IH. reflexivity.
Qed.

Lemma length_app (s t : string) :
  String.length (s +:+ t) = (String.length s + String.length t)%nat.
Proof.
  induction s as [|c s IH]; [reflexivity|].
  rewrite app_cons. simpl. rewrite IH. reflexivity.
Qed.

Lemma HasPrefix_app (p r : string) : HasPrefix (p +:+ r) p = true.
Proof.
  induction p as [|c p IH]; [reflexivity|].
  rewrite app_cons. simpl. rewrite Ascii.eqb_refl. exact IH.
Qed.

Lemma drop_app (p r : string) : drop (String.length p) (p +:+ r) = r.
Proof. induction p as [|c p IH]; [reflexivity|]. rewrite app_cons. exact IH. Qed.

Lemma HasPrefix_inv (s p : string) :
  HasPrefix s p = true -> s = p +:+ drop (String.length p) s.
Proof.
  revert s. induction p as [|c p IH]; intros s Hp; [reflexivity|].
  destruct s as [|d s]; [discriminate|]. simpl in Hp.
  destruct (Ascii.eqb c d) eqn:E; [|discriminate].
  apply Ascii.eqb_eq in E. subst d.
  rewrite app_cons. simpl. f_equal. apply IH, Hp.
Qed.

Lemma take_app (p r : string) : take (String.length p) (p +:+ r) = p.
Proof.
  induction p as [|c p IH]; [reflexivity|].
  rewrite app_cons. simpl. rewrite IH. reflexivity.
Qed.

Lemma take_consumed (p r : string) :
  take (String.length (p +:+ r) - String.length r) (p +:+ r) = p.
Proof.
  rewrite length_app.
  replace (String.length p + String.length r - String.length r)%nat
    with (String.length p) by lia.
  apply take_app.
Qed.

Lemma has_byte_app (c : ascii) (s t : string) :
  has_byte c (s +:+ t) = has_byte c s || has_byte c t.
Proof.
  induction s as [|d s IH]; [reflexivity|].
  rewrite app_cons. simpl. rewrite IH, orb_assoc. reflexivity.
Qed.

Example Trim_examples :
  Trim "//person.json/" slash = "person.json" /\
  Trim (String LF ("{}" +:+ String LF (String LF ""))) LF = "{}" /\
  Trim "a/b" slash = "a/b" /\
  Trim "///" slash = "".
Proof. repeat split. Qed.

Example Split_examples :
  Split "./README.md" = ("./", "README.md") /\
  Split "testdata/schemas/person.json" = ("testdata/schemas/", "person.json") /\
  Split "plain" = ("", "plain") /\
  Split "dir/" = ("dir/", "").
Proof. repeat split. Qed.

Example Replace_first_examples :
  Replace_first "abcabc" "bc" "X" = "aXabc" /\
  Replace_first "abc" "zz" "X" = "abc" /\
  Replace_first "abc" "" "X" = "Xabc".
Proof. repeat split. Qed.

Example Contains_examples :
  Contains "hello world!" "hello" = true /\
  Contains "hello world!" "abc" = false /\
  Contains "" "" = true.
Proof. repeat split. Qed.

End StringFacts.

(** ** Package [strconv] *)

Module StrconvFacts.

Example ParseInt_examples :
  Strconv.ParseInt "-12" = inr (-12)%Z /\
  Strconv.ParseInt "+7" = inr 7%Z /\
  Strconv.ParseInt "9223372036854775807" = inr 9223372036854775807%Z /\
  Strconv.ParseInt "9223372036854775808"
  = inl (NumError "ParseInt" "9223372036854775808" ErrRange) /\
  Strconv.ParseInt "-9223372036854775808" = inr (-9223372036854775808)%Z /\
  Strconv.ParseInt "abc" = inl (NumError "ParseInt" "abc" ErrSyntax) /\
  Strconv.ParseInt "" = inl (NumError "ParseInt" "" ErrSyntax).
Proof. vm_compute. repeat split. Qed.

Example ParseBool_examples :
  Strconv.ParseBool "true" = inr true /\
  Strconv.ParseBool "F" = inr false /\
  Strconv.ParseBool "yes" = inl (NumError "ParseBool" "yes" ErrSyntax).
Proof. vm_compute. repeat split. Qed.

End StrconvFacts.

(** ** The reference pattern *)

Module RegexpFacts.
Import Strings Regexp StringFacts.

Lemma match_group_Some (s k r : string) :
  match_group s = Some (k, r) ->
  s = k +:+ String backtick r /\ has_byte backtick k = false /\ has_byte LF k = false.
Proof.
  revert k r. induction s as [|c s IH]; intros k r Hm; [discriminate|].
  simpl in Hm. destruct (Ascii.eqb c backtick) eqn:Eb.
  - apply Ascii.eqb_eq in Eb. injection Hm as <- <-. subst c. auto.
  - destruct (Ascii.eqb c LF) eqn:El; [discriminate|].
    destruct (match_group s) as [[k' r']|] eqn:Es; [|discriminate].
    injection Hm as <- <-.
    destruct (IH k' r' eq_refl) as (-> & Hb & Hl).
    rewrite app_cons. simpl. rewrite Eb, El. auto.
Qed.

Lemma match_group_app (k r : string) :
  has_byte backtick k = false -> has_byte LF k = false ->
  match_group (k +:+ String backtick r) = Some (k, r).
Proof.
  induction k as [|c k IH]; intros Hb Hl; [reflexivity|].
  simpl in Hb, Hl. apply orb_false_iff in Hb as [Hb1 Hb2].
  apply orb_false_iff in Hl as [Hl1 Hl2].
  rewrite app_cons. simpl. rewrite Hb1, Hl1, (IH Hb2 Hl2). reflexivity.
Qed.

(** When the lazy group fails, every way of closing it crosses a line feed. *)
Lemma match_group_None (s : string) :
  match_group s = None ->
  forall k r, s = k +:+ String backtick r -> has_byte LF k = true.
Proof.
  induction s as [|c s IH]; intros Hm k r Hs.
  - destruct k; discriminate.
  - simpl in Hm. destruct (Ascii.eqb c backtick) eqn:Eb; [discriminate|].
    destruct k as [|d k].
    + injection Hs as -> _. rewrite Ascii.eqb_refl in Eb. discriminate.
    + rewrite app_cons in Hs. injection Hs as <- ->. simpl.
      destruct (Ascii.eqb c LF) eqn:El; [reflexivity|]. simpl.
      destruct (match_group (k +:+ String backtick r)) as [[k' r']|] eqn:Es; [discriminate|].
      exact (IH eq_refl k r eq_refl).
Qed.

Lemma match_here_Some (s k r : string) :
  match_here s = Some (k, r) ->
  s = "`##" +:+ k +:+ String backtick r /\
  has_byte backtick k = false /\ has_byte LF k = false.
Proof.
  unfold match_here. destruct (HasPrefix s "`##") eqn:Hp; [|discriminate].
  intros Hm. apply HasPrefix_inv in Hp.
  destruct (match_group_Some _ _ _ Hm) as (Hs & Hb & Hl).
  change (String.length "`##") with 3%nat in Hp.
  rewrite Hs in Hp. auto.
Qed.

Lemma match_here_app (k r : string) :
  has_byte backtick k = false -> has_byte LF k = false ->
  match_here ("`##" +:+ k +:+ String backtick r) = Some (k, r).
Proof.
  intros Hb Hl. unfold match_here. rewrite HasPrefix_app.
  change 3%nat with (String.length "`##"). rewrite drop_app.
  apply match_group_app; assumption.
Qed.

Lemma match_here_None (s : string) :
  match_here s = None -> forall k r, ~ matches_at s "" k r.
Proof.
  unfold match_here, matches_at. intros Hm k r [Hs Hl].
  rewrite app_nil_l in Hs. subst s.
  rewrite HasPrefix_app in Hm.
  change 3%nat with (String.length "`##") in Hm. rewrite drop_app in Hm.
  rewrite (match_group_None _ Hm k r eq_refl) in Hl. discriminate.
Qed.

Lemma matches_at_cons (c : ascii) (s pre k r : string) :
  matches_at (String c s) (String c pre) k r <-> matches_at s pre k r.
Proof.
  unfold matches_at. rewrite app_cons. split.
  - intros [Hs Hl]. injection Hs as ->. auto.
  - intros [-> Hl]. auto.
Qed.

Lemma matches_at_head (c d : ascii) (s pre k r : string) :
  matches_at (String c s) (String d pre) k r -> c = d.
Proof. unfold matches_at. rewrite app_cons. intros [Hs _]. congruence. Qed.

(** [find_reference] finds a match whose key has neither backtick nor
    line feed, and no match starts before it. *)
Lemma find_reference_Some (data pre k post : string) :
  find_reference data = Some (pre, k, post) ->
  matches_at data pre k post /\
  has_byte backtick k = false /\
  (forall pre' k' post', matches_at data pre' k' post' ->
     (String.length pre <= String.length pre')%nat).
Proof.
  revert pre. induction data as [|c data IH]; intros pre Hf.
  - simpl in Hf. discriminate.
  - simpl in Hf. destruct (match_here (String c data)) as [[k0 r0]|] eqn:Hm.
    + injection Hf as <- <- <-.
      destruct (match_here_Some _ _ _ Hm) as (Hs & Hb & Hl).
      split; [split; [exact Hs | exact Hl]|]. split; [exact Hb|].
      intros; simpl; lia.
    + destruct (find_reference data) as [[[pre0 k0] post0]|] eqn:Hr; [|discriminate].
      injection Hf as <- <- <-.
      destruct (IH pre0 eq_refl) as (Hma & Hb & Hleft).
      split; [apply matches_at_cons; exact Hma|]. split; [exact Hb|].
      intros pre' k' post' Hm'. destruct pre' as [|d pre'].
      * exfalso. exact (match_here_None _ Hm k' post' Hm').
      * pose proof (matches_at_head _ _ _ _ _ _ Hm') as <-.
        apply (proj1 (matches_at_cons _ _ _ _ _)) in Hm'.
        simpl. apply le_n_S. exact (Hleft _ _ _ Hm').
Qed.

Lemma find_reference_None (data : string) :
  find_reference data = None -> forall pre k post, ~ matches_at data pre k post.
Proof.
  induction data as [|c data IH]; intros Hf pre k post Hm.
  - destruct Hm as [Hs _]. destruct pre; discriminate.
  - simpl in Hf. destruct (match_here (String c data)) as [[k0 r0]|] eqn:Hh; [discriminate|].
    destruct (find_reference data) as [[[pre0 k0] post0]|] eqn:Hr; [discriminate|].
    destruct pre as [|d pre].
    + exact (match_here_None _ Hh k post Hm).
    + pose proof (matches_at_head _ _ _ _ _ _ Hm) as <-.
      apply (proj1 (matches_at_cons _ _ _ _ _)) in Hm.
      exact (IH eq_refl pre k post Hm).
Qed.

Example FindStringSubmatch_examples :
  FindStringSubmatch reference_pattern "hello `##hello` good" = ["`##hello`"; "hello"] /\
  FindStringSubmatch reference_pattern "`##a` `##b`" = ["`##a`"; "a"] /\
  FindStringSubmatch reference_pattern "`##` `##b`" = ["`##`"; ""] /\
  FindStringSubmatch reference_pattern "no reference `# here" = [] /\
  FindStringSubmatch reference_pattern ("`##a" +:+ String LF "b` `##c`") = ["`##c`"; "c"].
Proof. vm_compute. repeat split. Qed.

Lemma whole_match_app (k r : string) :
  ("`##" +:+ k +:+ "`") +:+ r = "`##" +:+ k +:+ String backtick r.
Proof. rewrite !app_assoc. reflexivity. Qed.

(** One step of the engine on [.*?]. *)
Lemma run_LazyStar_Dot (fuel : nat) (s cap : string)
    (k : string -> string -> option (string * string)) :
  run fuel (LazyStar Dot) s cap k =
  match k s cap with
  | Some res => Some res
  | None =>
      match fuel with
      | O => None
      | S fuel' =>
          match s with
          | String c s' =>
              if Ascii.eqb c LF then None
              else if (String.length s' <? String.length s)%nat
                   then run fuel' (LazyStar Dot) s' cap k
                   else None
          | EmptyString => None
          end
      end
  end.
Proof. destruct fuel; reflexivity. Qed.

Lemma HasPrefix_backtick (c : ascii) (s : string) :
  HasPrefix (String c s) "`" = Ascii.eqb c backtick.
Proof.
  change (HasPrefix (String c s) "`")
    with (if Ascii.eqb backtick c then HasPrefix s EmptyString else false).
  rewrite (Ascii.eqb_sym backtick c).
  destruct (Ascii.eqb c backtick); reflexivity.
Qed.

Lemma match_group_cons (c : ascii) (s : string) :
  match_group (String c s) =
  if Ascii.eqb c backtick then Some (EmptyString, s)
  else if Ascii.eqb c LF then None
  else match match_group s with
       | Some (k, r) => Some (String c k, r)
       | None => None
       end.
Proof. reflexivity. Qed.

(** The engine on the group and the closing backtick is the scanner:
    [start] is the input at the opening of the group, [pre] what the
    star has consumed so far. *)
Lemma run_group_scanner (s : string) :
  forall (fuel : nat) (start pre cap : string),
    start = pre +:+ s ->
    (String.length s < fuel)%nat ->
    run fuel (LazyStar Dot) s cap
      (fun s' _ =>
         if HasPrefix s' "`"
         then Some (take (String.length start - String.length s') start, drop 1 s')
         else None)
    = match match_group s with
      | Some (k, r) => Some (pre +:+ k, r)
      | None => None
      end.
Proof.
  induction s as [|c s IH]; intros fuel start pre cap Hstart Hfuel;
    rewrite run_LazyStar_Dot.
  - destruct fuel; reflexivity.
  - rewrite HasPrefix_backtick, match_group_cons.
    destruct (Ascii.eqb c backtick) eqn:Eb.
    + subst start. rewrite take_consumed, app_nil_r. reflexivity.
    + destruct fuel as [|fuel]; [simpl in Hfuel; lia|].
      destruct (Ascii.eqb c LF); [reflexivity|].
      assert (Hlt : (String.length s <? String.length (String c s))%nat = true)
        by (apply Nat.ltb_lt; simpl; lia).
      rewrite Hlt.
      rewrite (IH fuel start (pre +:+ String c EmptyString) cap).
      * destruct (match_group s) as [[k r]|]; [|reflexivity].
        rewrite app_assoc. reflexivity.
      * rewrite Hstart, app_assoc. reflexivity.
      * simpl in Hfuel. lia.
Qed.

Lemma length_drop_le (n : nat) (s : string) :
  (String.length (drop n s) <= String.length s)%nat.
Proof.
  revert s. induction n as [|n IH]; intros [|c s]; simpl; try lia.
  specialize (IH s). lia.
Qed.

(** On the reference pattern the engine and the scanner agree. *)
Lemma match_at_start_reference (s : string) :
  match_at_start reference_pattern s = match_here s.
Proof.
  unfold match_at_start, match_here, reference_pattern.
  cbn [run]. change (String.length "`##") with 3%nat.
  destruct (HasPrefix s "`##"); [|reflexivity].
  pose proof (run_group_scanner (drop 3 s) (S (String.length s)) (drop 3 s)
                EmptyString EmptyString eq_refl) as Hrun.
  pose proof (length_drop_le 3 s) as Hlen.
  specialize (Hrun ltac:(lia)).
  change (String.length "`") with 1%nat.
  etransitivity; [exact Hrun|].
  destruct (match_group (drop 3 s)) as [[k r]|]; reflexivity.
Qed.

Lemma FindStringSubmatch_find_reference (data : string) :
  FindStringSubmatch reference_pattern data =
  match find_reference data with
  | Some (_, k, _) => ["`##" +:+ k +:+ "`"; k]
  | None => []
  end.
Proof.
  induction data as [|c data IH].
  - reflexivity.
  - cbn [FindStringSubmatch find_reference]. rewrite match_at_start_reference.
    destruct (match_here (String c data)) as [[k r]|] eqn:Hm.
    + destruct (match_here_Some _ _ _ Hm) as (Hs & _ & _).
      rewrite Hs, <- whole_match_app, take_consumed. reflexivity.
    + rewrite IH. destruct (find_reference data) as [[[pre k] post]|]; reflexivity.
Qed.

Lemma Replace_first_eq (s old new : string) :
  Replace_first s old new =
  if HasPrefix s old then new +:+ drop (String.length old) s
  else match s with
       | EmptyString => EmptyString
       | String c s' => String c (Replace_first s' old new)
       end.
Proof. destruct s; reflexivity. Qed.

(** The first occurrence of the matched text is the match itself. *)
Lemma Replace_first_find_reference (data pre k post new : string) :
  find_reference data = Some (pre, k, post) ->
  Replace_first data ("`##" +:+ k +:+ "`") new = pre +:+ new +:+ post.
Proof.
  revert pre. induction data as [|c data IH]; intros pre Hf; [discriminate|].
  pose proof (find_reference_Some _ _ _ _ Hf) as ([_ Hl] & Hb & _).
  rewrite Replace_first_eq.
  simpl in Hf. destruct (match_here (String c data)) as [[k0 r0]|] eqn:Hm.
  - injection Hf as <- <- <-.
    destruct (match_here_Some _ _ _ Hm) as (Hs & _ & _).
    rewrite Hs, <- whole_match_app, HasPrefix_app, drop_app. reflexivity.
  - destruct (find_reference data) as [[[pre0 k0] post0]|] eqn:Hr; [|discriminate].
    injection Hf as <- <- <-.
    destruct (HasPrefix (String c data) ("`##" +:+ k0 +:+ "`")) eqn:Hp.
    + apply HasPrefix_inv in Hp. rewrite whole_match_app in Hp.
      rewrite Hp, (match_here_app _ _ Hb Hl) in Hm. discriminate.
    + rewrite (IH pre0 eq_refl), app_cons. reflexivity.
Qed.

End RegexpFacts.

(** ** Scope substitution *)

Module ResolveFacts.
Import Strings Regexp StringFacts RegexpFacts Resolve.

Lemma app_inv_length (s1 t1 s2 t2 : string) :
  s1 +:+ t1 = s2 +:+ t2 -> String.length s1 = String.length s2 ->
  s1 = s2 /\ t1 = t2.
Proof.
  revert s2. induction s1 as [|c s1 IH]; intros [|d s2] He Hl; try discriminate.
  - auto.
  - rewrite !app_cons in He. injection He as -> He. injection Hl as Hl.
    destruct (IH s2 He Hl) as [-> ->]. auto.
Qed.

Lemma find_reference_leftmost (data pre key post : string) :
  leftmost_match data pre key post -> find_reference data = Some (pre, key, post).
Proof.
  intros (Hm & Hb & Hleft).
  destruct (find_reference data) as [[[pre0 k0] post0]|] eqn:Hf.
  - destruct (find_reference_Some _ _ _ _ Hf) as (Hm0 & Hb0 & Hleft0).
    pose proof (Hleft _ _ _ Hm0) as L1. pose proof (Hleft0 _ _ _ Hm) as L2.
    destruct Hm as [Hs Hl], Hm0 as [Hs0 Hl0].
    rewrite Hs in Hs0.
    destruct (app_inv_length _ _ _ _ Hs0 ltac:(lia)) as [-> Hrest].
    apply (f_equal match_here) in Hrest.
    rewrite !match_here_app in Hrest by assumption.
    injection Hrest as -> ->. reflexivity.
  - exfalso. exact (find_reference_None _ Hf _ _ _ Hm).
Qed.

(** The step in terms of the leftmost match. *)
Lemma ReplaceScopeVariables_find_reference (scope : gmap string string) (data : string) :
  ReplaceScopeVariables scope data =
  match find_reference data with
  | Some (pre, String c key, post) => pre +:+ map_get scope (String c key) +:+ post
  | _ => data
  end.
Proof.
  unfold ReplaceScopeVariables. rewrite FindStringSubmatch_find_reference.
  destruct (find_reference data) as [[[pre k] post]|] eqn:Hf; [|reflexivity].
  destruct k as [|c k]; [reflexivity|].
  cbn [length nth Nat.ltb Nat.leb orb String.length].
  exact (Replace_first_find_reference _ _ _ _ _ Hf).
Qed.

Lemma no_match_find_reference (data : string) :
  no_match data <-> find_reference data = None.
Proof.
  split.
  - intros Hn. destruct (find_reference data) as [[[pre k] post]|] eqn:Hf; [|reflexivity].
    destruct (find_reference_Some _ _ _ _ Hf) as (Hm & _). destruct (Hn _ _ _ Hm).
  - intros Hf pre k post. exact (find_reference_None _ Hf pre k post).
Qed.

Lemma ReplaceScopeVariables_no_match (scope : gmap string string) (data : string) :
  no_match data -> ReplaceScopeVariables scope data = data.
Proof.
  intros Hn. rewrite ReplaceScopeVariables_find_reference.
  apply no_match_find_reference in Hn. rewrite Hn. reflexivity.
Qed.

Lemma reference_at_here (b : bool) (s key post : string) :
  reference_at b s "" key post -> match_here s = Some (key, post).
Proof.
  intros (Hs & Hb & Hl & _). rewrite app_nil_l in Hs. subst s.
  apply match_here_app; assumption.
Qed.

Lemma reference_at_cons (b : bool) (c d : ascii) (s pre key post : string) :
  reference_at b (String c s) (String d pre) key post -> reference_at b s pre key post.
Proof.
  intros (Hs & Hrest). rewrite app_cons in Hs. injection Hs as _ Hs.
  split; assumption.
Qed.

(** One step of the search for a reference in a literal: it does not
    start here, so it starts further right. *)
Ltac not_here Href :=
  lazymatch type of Href with
  | reference_at _ _ ?pre _ _ =>
      destruct pre as [|? pre];
      [ exfalso;
        let Hh := fresh "Hh" in
        pose proof (reference_at_here _ _ _ _ Href) as Hh; vm_compute in Hh;
        first [ discriminate Hh
              | injection Hh as <- <-;
                let Hne := fresh "Hne" in
                destruct Href as (_ & _ & _ & Hne); exact (Hne eq_refl eq_refl) ]
      | apply reference_at_cons in Href ]
  end.

(** The repository's test of the substitution. *)
Example TestApiContext_ReplaceScopeVariables :
  exists ctx,
    StoreScopeData "hello" "world" (New "https://example.com") = Return (None, ctx) /\
    ReplaceScopeVariables (scope ctx) "hello `##hello` good" = "hello world good".
Proof. eexists. split; [reflexivity|]. vm_compute. reflexivity. Qed.

(** C3, as stated: the scan stops at the leftmost match even when its
    key is empty, so in [`##` and `##k`] the reference to [k] is not
    replaced (reading key names as non-empty), and the empty reference
    is not replaced by the value stored under the empty name either. *)
Lemma first_reference_not_replaced :
  ~ replaces_first_reference false /\ ~ replaces_first_reference true.
Proof.
  split; intros Hc.
  - specialize (Hc {[ "k" := "v" ]} "`##` and `##k`" "`##` and " "k" "").
    assert (Hfirst : first_reference false "`##` and `##k`" "`##` and " "k" "").
    { split.
      - repeat split; try reflexivity. intros _. discriminate.
      - intros pre' key' post' Href.
        do 9 not_here Href. simpl. lia. }
    specialize (Hc Hfirst). vm_compute in Hc. discriminate Hc.
  - specialize (Hc ∅ "`##` and `##k`" "" "" " and `##k`").
    assert (Hfirst : first_reference true "`##` and `##k`" "" "" " and `##k`").
    { split.
      - repeat split; try reflexivity. intros E. discriminate E.
      - intros pre' key' post' _. simpl. lia. }
    specialize (Hc Hfirst). vm_compute in Hc. discriminate Hc.
Qed.

(** C3, amended: the leftmost match of the pattern is replaced by the
    stored value of its key (the empty string when the key is absent)
    when that key is not empty; with no match, or when the leftmost
    match is the empty reference, the string comes back unchanged.
    After [store("k","v")], [prefix `##k` suffix] resolves to
    [prefix v suffix], and with [k] unset to [prefix  suffix]. *)
Theorem ReplaceScopeVariables_leftmost_match (scope : gmap string string) (data : string) :
  (no_match data -> ReplaceScopeVariables scope data = data) /\
  (forall pre key post,
     leftmost_match data pre key post -> key <> "" ->
     ReplaceScopeVariables scope data = pre +:+ map_get scope key +:+ post) /\
  (forall pre post,
     leftmost_match data pre "" post -> ReplaceScopeVariables scope data = data) /\
  (forall key, scope !! key = None -> map_get scope key = "") /\
  ReplaceScopeVariables (<[ "k" := "v" ]> scope) "prefix `##k` suffix" = "prefix v suffix" /\
  (scope !! "k" = None ->
   ReplaceScopeVariables scope "prefix `##k` suffix" = "prefix  suffix").
Proof.
  split; [apply ReplaceScopeVariables_no_match|].
  split.
  { intros pre key post Hm Hne. rewrite ReplaceScopeVariables_find_reference.
    rewrite (find_reference_leftmost _ _ _ _ Hm).
    destruct key as [|c key]; [congruence | reflexivity]. }
  split.
  { intros pre post Hm. rewrite ReplaceScopeVariables_find_reference.
    rewrite (find_reference_leftmost _ _ _ _ Hm). reflexivity. }
  split.
  { intros key Hk. unfold map_get. rewrite Hk. reflexivity. }
  assert (Hf : find_reference "prefix `##k` suffix" = Some ("prefix ", "k", " suffix"))
    by (vm_compute; reflexivity).
  split.
  - rewrite ReplaceScopeVariables_find_reference, Hf.
    unfold map_get. rewrite lookup_insert_eq. reflexivity.
  - intros Hk. rewrite ReplaceScopeVariables_find_reference, Hf.
    unfold map_get. rewrite Hk. reflexivity.
Qed.

Lemma leftmost_match_example :
  leftmost_match "see `##id` and `##other`" "see " "id" " and `##other`".
Proof.
  assert (Hf : find_reference "see `##id` and `##other`"
               = Some ("see ", "id", " and `##other`")) by (vm_compute; reflexivity).
  exact (find_reference_Some _ _ _ _ Hf).
Qed.

(** Only the first of two references is replaced. *)
Lemma ReplaceScopeVariables_leftmost_match_witness :
  ReplaceScopeVariables {[ "id" := "42" ]} "see `##id` and `##other`"
  = "see 42 and `##other`".
Proof.
  rewrite (proj1 (proj2 (ReplaceScopeVariables_leftmost_match
                           {[ "id" := "42" ]} "see `##id` and `##other`"))
             "see " "id" " and `##other`" leftmost_match_example ltac:(discriminate)).
  vm_compute. reflexivity.
Defined.

(** C8: substitution is idempotent on a string in which the pattern has
    no match. *)
Theorem ReplaceScopeVariables_idempotent (scope : gmap string string) (x : string) :
  no_match x ->
  ReplaceScopeVariables scope (ReplaceScopeVariables scope x)
  = ReplaceScopeVariables scope x.
Proof.
  intros Hn. rewrite (ReplaceScopeVariables_no_match scope x Hn).
  apply ReplaceScopeVariables_no_match, Hn.
Qed.

(** A text with the marker bytes but no complete reference. *)
Lemma ReplaceScopeVariables_idempotent_witness :
  ReplaceScopeVariables {[ "k" := "v" ]} (ReplaceScopeVariables {[ "k" := "v" ]} "a `# plain ## text")
  = ReplaceScopeVariables {[ "k" := "v" ]} "a `# plain ## text".
Proof.
  apply (ReplaceScopeVariables_idempotent {[ "k" := "v" ]} "a `# plain ## text").
  apply no_match_find_reference. vm_compute. reflexivity.
Defined.

End ResolveFacts.

(** ** The steps *)

Module StepFacts.

(** Unfold the plumbing of a step down to the context it reads. *)
Ltac run := unfold bind, ret, get, modify, lift, panic, deref_lastResponse; simpl.

Lemma ISetHeadersTo_rows_eq (dt : Table) (ctx : ApiContext) :
  two_columns dt ->
  ISetHeadersTo_rows dt ctx
  = Return (tt, with_headers (set_rows (scope ctx) dt (headers ctx)) ctx).
Proof.
  intros Hwf. revert ctx. induction Hwf as [|row dt Hrow _ IH]; intros ctx.
  - destruct ctx; reflexivity.
  - destruct row as [|n [|v row]]; simpl in Hrow; try lia.
    simpl. run. rewrite IH. reflexivity.
Qed.

Lemma ISetQueryParamsTo_rows_eq (dt : Table) (ctx : ApiContext) :
  two_columns dt ->
  ISetQueryParamsTo_rows dt ctx
  = Return (tt, with_queryParams (set_rows (scope ctx) dt (queryParams ctx)) ctx).
Proof.
  intros Hwf. revert ctx. induction Hwf as [|row dt Hrow _ IH]; intros ctx.
  - destruct ctx; reflexivity.
  - destruct row as [|n [|v row]]; simpl in Hrow; try lia.
    simpl. run. rewrite IH. reflexivity.
Qed.

Lemma set_rows_lookup (sc : gmap string string) (dt : Table) (acc : gmap string string)
    (name : string) :
  set_rows sc dt acc !! name =
  match last_value name dt with
  | Some v => Some (ReplaceScopeVariables sc v)
  | None => acc !! name
  end.
Proof.
  revert acc. induction dt as [|row dt IH]; intros acc; [reflexivity|].
  simpl. destruct row as [|n [|v row]]; rewrite IH;
    destruct (last_value name dt); try reflexivity.
  destruct (String.eqb n name) eqn:E.
  - apply String.eqb_eq in E. subst n. apply lookup_insert_eq.
  - apply String.eqb_neq in E. apply lookup_insert_ne. exact E.
Qed.

Section Assertions.
Context {lib : Platform}.

(** C1, amended: with no response captured an assertion step does not
    return an error of its own.  Every step that reads the response
    panics on the nil pointer as soon as it does; the schema check first
    looks for the schema file and returns the file errors, and panics
    once the file has been read. *)
Theorem assertions_without_response (ctx : ApiContext) :
  lastResponse ctx = None ->
  (forall statusCode, TheResponseCodeShouldBe statusCode ctx = Panic nil_dereference) /\
  TheResponseShouldBeAValidJSON ctx = Panic nil_dereference /\
  (forall pathExpr expectedValue,
     TheJSONPathShouldHaveValue pathExpr expectedValue ctx = Panic nil_dereference) /\
  (forall pathExpr pattern,
     TheJSONPathShouldMatch pathExpr pattern ctx = Panic nil_dereference) /\
  (forall pathExpr, TheJSONPathShouldBePresent pathExpr ctx = Panic nil_dereference) /\
  (forall pathExpr expectedCount,
     TheJSONPathHaveCount pathExpr expectedCount ctx = Panic nil_dereference) /\
  (forall body, TheResponseShouldMatchJSON body ctx = Panic nil_dereference) /\
  (forall sub, TheResponseBodyShouldContain sub ctx = Panic nil_dereference) /\
  (forall pattern, TheResponseBodyShouldMatch pattern ctx = Panic nil_dereference) /\
  (forall name expectedValue,
     TheResponseHeaderShouldHaveValue name expectedValue ctx = Panic nil_dereference) /\
  (forall path,
     let schemaPath := jSONSchemasPath ctx +:+ "/" +:+ Strings.Trim path Strings.slash in
     TheResponseShouldMatchJsonSchema path ctx =
     if os_Stat_IsNotExist schemaPath then
       Return (Errorf ("JSON schema file does not exist: " +:+ schemaPath), ctx)
     else
       match ioutil_ReadFile schemaPath with
       | inl err => Return (Some (wrapped "cannot open json schema file: " err), ctx)
       | inr _ => Panic nil_dereference
       end).
Proof.
  intros Hnone.
  repeat split; intros;
    try (unfold TheResponseCodeShouldBe, TheResponseShouldBeAValidJSON,
           TheJSONPathShouldHaveValue, TheJSONPathShouldMatch,
           TheJSONPathShouldBePresent, TheJSONPathHaveCount,
           TheResponseShouldMatchJSON, TheResponseBodyShouldContain,
           TheResponseBodyShouldMatch, TheResponseHeaderShouldHaveValue;
         run; rewrite Hnone; reflexivity).
  unfold TheResponseShouldMatchJsonSchema. run. fold schemaPath.
  destruct (os_Stat_IsNotExist schemaPath); [reflexivity|].
  destruct (ioutil_ReadFile schemaPath); [reflexivity|].
  run. rewrite Hnone. reflexivity.
Qed.

Lemma TheJSONPathShouldHaveValue_eval (ctx : ApiContext) (r : ApiResponse)
    (data actual : any) (pathExpr expectedValue : string) :
  lastResponse ctx = Some r ->
  json_Unmarshal (Body r) = inr data ->
  jsonpath_Get pathExpr data = inr actual ->
  TheJSONPathShouldHaveValue pathExpr expectedValue ctx =
  match Reflect.TypeOf_Kind actual with
  | Panic p => Panic p
  | Return k =>
      match parse_expected k (ReplaceScopeVariables (scope ctx) expectedValue) with
      | inl err => Return (Some err, ctx)
      | inr parsed =>
          match interface_eq actual parsed with
          | Panic p => Panic p
          | Return same =>
              if negb same then
                Return (Errorf ("expected json path to have value " +:+ fmt_v parsed +:+
                                " but it is " +:+ fmt_v actual), ctx)
              else Return (None, ctx)
          end
      end
  end.
Proof.
  intros Hr Hd Ha. unfold TheJSONPathShouldHaveValue. run.
  rewrite Hr, Hd, Ha. simpl.
  destruct (Reflect.TypeOf_Kind actual) as [k|p]; [|reflexivity].
  destruct (parse_expected k _) as [err|parsed]; [reflexivity|].
  destruct (interface_eq actual parsed) as [same|p]; [|reflexivity].
  destruct same; reflexivity.
Qed.

Lemma succeeds_iff_intro (ctx : ApiContext) (same : bool) (msg : string) (P : Prop) :
  (same = true <-> P) ->
  succeeds_iff (if negb same then Return (Errorf msg, ctx) else Return (None, ctx)) ctx P.
Proof.
  intros HP. destruct same; simpl; split.
  - split; [intros _; apply HP; reflexivity | reflexivity].
  - intros Hn. destruct Hn. apply HP. reflexivity.
  - split; [discriminate | intros HPt; apply HP in HPt; discriminate].
  - intros _. eexists. reflexivity.
Qed.


(** An [int32] at the path is compared with the [int64] that [ParseInt]
    yields: two values of different dynamic types are never equal.  The
    JSON decoder produces no [int32], so the case does not arise. *)
Remark TheJSONPathShouldHaveValue_int32 (ctx : ApiContext) (r : ApiResponse)
    (data : any) (n : Z) (pathExpr expectedValue : string) :
  lastResponse ctx = Some r ->
  json_Unmarshal (Body r) = inr data ->
  jsonpath_Get pathExpr data = inr (of_int32 n) ->
  TheJSONPathShouldHaveValue pathExpr expectedValue ctx <> Return (None, ctx).
Proof.
  intros Hr Hd Ha.
  rewrite (TheJSONPathShouldHaveValue_eval ctx r data _ _ _ Hr Hd Ha). simpl.
  destruct (Strconv.ParseInt _); discriminate.
Qed.

Lemma TheJSONPathHaveCount_eval (ctx : ApiContext) (r : ApiResponse)
    (data value : any) (pathExpr : string) (expectedCount : Z) :
  lastResponse ctx = Some r ->
  json_Unmarshal (Body r) = inr data ->
  jsonpath_Get pathExpr data = inr value ->
  TheJSONPathHaveCount pathExpr expectedCount ctx =
  if negb (Kind_is_Slice (Reflect.ValueOf_Kind value)) then
    Return (Errorf ("the json path " +:+ pathExpr +:+ " is not an array. Found " +:+
                    fmt_v value), ctx)
  else if negb (Reflect.ValueOf_Len value =? expectedCount)%Z then
    Return (Errorf ("the value " +:+ fmt_v value +:+ " doenst have count " +:+
                    fmt_d expectedCount +:+ " but " +:+
                    fmt_d (Reflect.ValueOf_Len value)), ctx)
  else Return (None, ctx).
Proof.
  intros Hr Hd Hv. unfold TheJSONPathHaveCount. run. rewrite Hr, Hd, Hv.
  destruct (negb (Kind_is_Slice _)); [reflexivity|].
  destruct (negb (_ =? _)%Z); reflexivity.
Qed.

(** C7: a value at the path that is not an array fails the count check
    with an error that prints the value; for an array the check
    succeeds exactly when its length is the expected count, so an array
    of two elements passes the check for count 2. *)
Theorem TheJSONPathHaveCount_spec (ctx : ApiContext) (r : ApiResponse)
    (data value : any) (pathExpr : string) (expectedCount : Z) :
  lastResponse ctx = Some r ->
  json_Unmarshal (Body r) = inr data ->
  jsonpath_Get pathExpr data = inr value ->
  let result := TheJSONPathHaveCount pathExpr expectedCount ctx in
  ((forall l, value <> of_slice l) ->
   result = Return (Errorf ("the json path " +:+ pathExpr +:+
                            " is not an array. Found " +:+ fmt_v value), ctx)) /\
  (forall l, value = of_slice l ->
     succeeds_iff result ctx (Z.of_nat (length l) = expectedCount)) /\
  (forall x y, value = of_slice [x; y] -> expectedCount = 2%Z ->
     result = Return (None, ctx)).
Proof.
  intros Hr Hd Hv result.
  pose proof (TheJSONPathHaveCount_eval ctx r data value pathExpr expectedCount Hr Hd Hv)
    as He. fold result in He.
  refine (conj _ (conj _ _)).
  - intros Hns. rewrite He.
    destruct value; try reflexivity. destruct (Hns l eq_refl).
  - intros l ->. rewrite He. simpl. apply succeeds_iff_intro. apply Z.eqb_eq.
  - intros x y -> ->. rewrite He. reflexivity.
Qed.

End Assertions.

Section Sending.
Context {lib : Platform}.

(** Ranging over the accumulated headers with a nil request: nothing
    happens when there is no header, the first header panics. *)
Lemma range_Header_Set_nil (hs : gmap string string) :
  (hs = ∅ -> range_Header_Set None hs = Return None) /\
  (hs <> ∅ -> range_Header_Set None hs = Panic nil_dereference).
Proof.
  unfold range_Header_Set.
  apply (map_fold_weak_ind
           (fun acc (m : gmap string string) =>
              (m = ∅ -> acc = Return None) /\ (m <> ∅ -> acc = Panic nil_dereference))).
  - split; [reflexivity | congruence].
  - intros name value m acc Hfresh [Hemp Hne]. split.
    + intros Habs. destruct (insert_non_empty _ _ _ Habs).
    + intros _. destruct (decide (m = ∅)) as [E|E].
      * rewrite (Hemp E). reflexivity.
      * rewrite (Hne E). reflexivity.
Qed.

(** C9: when [http.NewRequest] fails, the headers are written into the
    nil request before the error is looked at: the error is returned
    exactly when no header has been accumulated, and with any header the
    step panics on the nil pointer. *)
Theorem ISendRequestToWithBody_request_error (ctx : ApiContext)
    (method uri requestBody : string) (err : error) :
  http_NewRequest method (baseURL ctx +:+ uri)
    (Some (ReplaceScopeVariables (scope ctx) requestBody)) = inl err ->
  (headers ctx = ∅ ->
   ISendRequestToWithBody method uri requestBody ctx = Return (Some err, ctx)) /\
  (headers ctx <> ∅ ->
   ISendRequestToWithBody method uri requestBody ctx = Panic nil_dereference) /\
  (ISendRequestToWithBody method uri requestBody ctx = Return (Some err, ctx)
   <-> headers ctx = ∅).
Proof.
  intros Hnew.
  destruct (range_Header_Set_nil (headers ctx)) as [Hnone Hsome].
  assert (He : headers ctx = ∅ ->
               ISendRequestToWithBody method uri requestBody ctx = Return (Some err, ctx)).
  { intros Hemp. unfold ISendRequestToWithBody. run.
    rewrite Hnew, (Hnone Hemp). reflexivity. }
  assert (Hp : headers ctx <> ∅ ->
               ISendRequestToWithBody method uri requestBody ctx = Panic nil_dereference).
  { intros Hne. unfold ISendRequestToWithBody. run.
    rewrite Hnew, (Hsome Hne). reflexivity. }
  refine (conj He (conj Hp (conj _ He))).
  intros Hret. destruct (decide (headers ctx = ∅)) as [Hemp|Hne]; [exact Hemp|].
  rewrite (Hp Hne) in Hret. discriminate Hret.
Qed.

(** The rows of a form table are written one after the other. *)
Lemma write_form_rows_app (before rest : Table) (w : multipart_Writer) (ctx : ApiContext) :
  write_form_rows (before ++ rest) w ctx =
  match write_form_rows before w ctx with
  | Return (inr w', ctx') => write_form_rows rest w' ctx'
  | Return (inl err, ctx') => Return (inl err, ctx')
  | Panic p => Panic p
  end.
Proof.
  revert w. induction before as [|row before IH]; intros w; [reflexivity|].
  simpl. run.
  destruct (cell row 0) as [key|p]; [|reflexivity]. simpl.
  destruct (cell row 1) as [raw|p]; [|reflexivity]. simpl.
  destruct (cell row 2) as [typeOfField|p]; [|reflexivity]. simpl.
  destruct (String.eqb typeOfField "text").
  { destruct (WriteField w key _) as [w' [e|]]; [reflexivity | apply IH]. }
  destruct (String.eqb typeOfField "file"); [|apply IH].
  destruct (os_Open _) as [e|file]; [reflexivity|].
  destruct (CreateFormFile w key _) as [e|w']; [reflexivity|].
  destruct (io_Copy w' file) as [w'' [e|]]; [reflexivity | apply IH].
Qed.

(** C6, amended: when a file row names a file that cannot be opened,
    the step panics with the error of [os.Open]; nothing is returned to
    the caller and no request is made. *)
Theorem ISendRequestToWithFormBody_open_failure (ctx : ApiContext)
    (method uri key value : string) (more : list string) (before rest : Table)
    (w : multipart_Writer) (err : error) :
  write_form_rows before multipart_NewWriter ctx = Return (inr w, ctx) ->
  os_Open (ReplaceScopeVariables (scope ctx) value) = inl err ->
  ISendRequestToWithFormBody method uri
    (before ++ (key :: value :: "file" :: more) :: rest) ctx
  = Panic (panic_error err).
Proof.
  intros Hbefore Hopen. unfold ISendRequestToWithFormBody.
  unfold bind at 1. unfold get at 1. unfold bind at 1.
  rewrite write_form_rows_app, Hbefore.
  simpl. run. rewrite Hopen. reflexivity.
Qed.

End Sending.

(** A method that is not a token, with one header accumulated. *)
Lemma ISendRequestToWithBody_request_error_witness :
  ISendRequestToWithBody (lib := Reference.fixture) "BAD METHOD" "/items" "{}"
    (with_headers {[ "Content-Type" := "application/json" ]} (New "https://example.com"))
  = Panic nil_dereference.
Proof.
  apply (proj1 (proj2 (ISendRequestToWithBody_request_error (lib := Reference.fixture)
                         (with_headers {[ "Content-Type" := "application/json" ]}
                            (New "https://example.com"))
                         "BAD METHOD" "/items" "{}"
                         (errorString ("net/http: invalid method " +:+
                                       Reference.quoted "BAD METHOD"))
                         ltac:(vm_compute; reflexivity)))).
  vm_compute. discriminate.
Defined.

(** The same request with no header accumulated returns the error. *)
Example request_error_without_headers :
  ISendRequestToWithBody (lib := Reference.fixture) "BAD METHOD" "/items" "{}"
    (New "https://example.com")
  = Return (Some (errorString ("net/http: invalid method " +:+ Reference.quoted "BAD METHOD")),
            New "https://example.com").
Proof. vm_compute. reflexivity. Qed.

(** C6, as stated: a file row that names a missing file makes the step
    panic; no error value comes back. *)
Lemma missing_upload_file_panics :
  ~ returns_error
      (ISendRequestToWithFormBody (lib := Reference.fixture) "POST" "/"
         [["hello"; "world"; "text"]; ["simplefile"; "./README.md"; "file"]]
         (New "https://example.com")).
Proof. intros (err & ctx' & He). vm_compute in He. discriminate He. Qed.

(** The form table of the repository's test on a file system without
    the file. *)
Lemma ISendRequestToWithFormBody_open_failure_witness :
  ISendRequestToWithFormBody (lib := Reference.fixture) "POST" "/"
    [["hello"; "world"; "text"]; ["simplefile"; "./README.md"; "file"]]
    (New "https://example.com")
  = Panic (panic_error (errorString "open ./README.md: no such file or directory")).
Proof.
  apply (ISendRequestToWithFormBody_open_failure (lib := Reference.fixture)
           (New "https://example.com") "POST" "/" "simplefile" "./README.md" []
           [["hello"; "world"; "text"]] [] [("hello", "", "world")]).
  - vm_compute. reflexivity.
  - vm_compute. reflexivity.
Defined.

(** C1, as stated: on a fresh context the status-code check does not
    return an error at all, it panics. *)
Lemma response_code_without_response_panics :
  ~ fails_without_response (TheResponseCodeShouldBe 200).
Proof.
  intros Hc.
  destruct (Hc (New "https://example.com") eq_refl) as (err & ctx' & He).
  vm_compute in He. discriminate He.
Qed.

(** On a fresh context the JSON validity check panics. *)
Lemma assertions_without_response_witness :
  TheResponseShouldBeAValidJSON (lib := Reference.platform Reference.offline ∅)
    (New "https://example.com")
  = Panic nil_dereference.
Proof.
  exact (proj1 (proj2 (assertions_without_response
                         (lib := Reference.platform Reference.offline ∅)
                         (New "https://example.com") eq_refl))).
Defined.


(** The count check at the root of the body [[1, 2]]. *)
Lemma TheJSONPathHaveCount_spec_witness :
  TheJSONPathHaveCount (lib := Reference.fixture) "$" 2 (Reference.after_get "[1, 2]")
  = Return (None, Reference.after_get "[1, 2]").
Proof.
  apply (proj2 (proj2 (TheJSONPathHaveCount_spec (lib := Reference.fixture)
                         (Reference.after_get "[1, 2]")
                         (mkApiResponse 200 "[1, 2]" (mkResponse 200 ∅ (inr "[1, 2]")))
                         (of_slice [of_float64 1; of_float64 2])
                         (of_slice [of_float64 1; of_float64 2]) "$" 2
                         ltac:(vm_compute; reflexivity) ltac:(vm_compute; reflexivity)
                         ltac:(vm_compute; reflexivity)))
           (of_float64 1) (of_float64 2) eq_refl eq_refl).
Defined.

(** The count check on a value that is not an array: the member [a] of
    the example body. *)
Example count_of_a_string_fails :
  TheJSONPathHaveCount (lib := Reference.fixture) "$.a" 1
    (Reference.after_get Reference.json_path_body)
  = Return (Errorf "the json path $.a is not an array. Found a",
            Reference.after_get Reference.json_path_body).
Proof. vm_compute. reflexivity. Qed.

(** C2: what [reset] does to each field of the context.  The two
    accumulators and the two captured messages are cleared; the scope
    store is handed on as it was. *)
Theorem reset_keeps_scope (ctx : ApiContext) :
  exists ctx',
    reset ctx = Return (tt, ctx') /\
    headers ctx' = ∅ /\ queryParams ctx' = ∅ /\
    lastResponse ctx' = None /\ lastRequest ctx' = None /\
    scope ctx' = scope ctx /\
    baseURL ctx' = baseURL ctx /\ jSONSchemasPath ctx' = jSONSchemasPath ctx /\
    debug ctx' = debug ctx.
Proof. eexists. split; [reflexivity|]. repeat split. Qed.

(** A value stored in one scenario is still read in the next one. *)
Example reset_leaks_scope_entry :
  let ctx := with_scope {[ "token" := "abc" ]} (New "https://example.com") in
  exists ctx',
    reset ctx = Return (tt, ctx') /\
    TheScopeVariableShouldHaveValue "token" "abc" ctx' = Return (None, ctx').
Proof. eexists. split; reflexivity. Qed.



(** The asymmetry on one value: a reference in a header value survives
    the single-header step and is resolved by the table step. *)
Example header_steps_differ :
  let ctx := with_scope {[ "id" := "42" ]} (New "https://example.com") in
  (exists ctx',
     ISetHeaderWithValue "X-Id" "`##id`" ctx = Return (None, ctx') /\
     headers ctx' !! "X-Id" = Some "`##id`") /\
  (exists ctx',
     ISetHeadersTo [["X-Id"; "`##id`"]] ctx = Return (None, ctx') /\
     headers ctx' !! "X-Id" = Some "42").
Proof. split; eexists; split; reflexivity. Qed.

(** C10: for a key that was never stored the check compares the
    expected value with the empty string: it succeeds exactly when the
    expected value is empty, and otherwise returns the ordinary
    mismatch error with an empty actual value. *)
Theorem scope_variable_never_stored (ctx : ApiContext) (scopeKeyName expectedValue : string) :
  scope ctx !! scopeKeyName = None ->
  (TheScopeVariableShouldHaveValue scopeKeyName expectedValue ctx = Return (None, ctx)
   <-> expectedValue = "") /\
  (expectedValue <> "" ->
   TheScopeVariableShouldHaveValue scopeKeyName expectedValue ctx
   = Return (Errorf ("expected scope variable to have value " +:+ expectedValue +:+
                     ". actual : " +:+ ""), ctx)).
Proof.
  intros Hk. unfold TheScopeVariableShouldHaveValue. run.
  unfold map_get. rewrite Hk.
  destruct expectedValue as [|c rest]; simpl.
  - split; [tauto | congruence].
  - split; [|reflexivity]. split; discriminate.
Qed.

(** A key that was never stored passes the check against the empty text. *)
Lemma scope_variable_never_stored_witness :
  TheScopeVariableShouldHaveValue "missing" "" (New "https://example.com")
  = Return (None, New "https://example.com").
Proof.
  apply (proj1 (scope_variable_never_stored (New "https://example.com") "missing" ""
                  ltac:(reflexivity))).
  reflexivity.
Defined.

End StepFacts.

(** * Further properties of the code *)

(** ** Substitution *)

Module SubstitutionFacts.
Import Strings Regexp StringFacts RegexpFacts Resolve ResolveFacts.

(** A literal is a key name. *)
Ltac literal_key_name :=
  refine (conj _ (conj _ _)); [discriminate | reflexivity | reflexivity].

(** X1: what [FindStringSubmatch] yields for the reference pattern:
    [nil] exactly when the pattern has no match, and otherwise the text
    and the key of the leftmost match, the key ending at the first
    backtick. *)
Theorem FindStringSubmatch_reference_pattern (data : string) :
  (FindStringSubmatch reference_pattern data = [] <-> no_match data) /\
  (forall whole key,
     FindStringSubmatch reference_pattern data = [whole; key] <->
     exists pre post, leftmost_match data pre key post /\ whole = reference_to key) /\
  (length (FindStringSubmatch reference_pattern data) = 0%nat \/
   length (FindStringSubmatch reference_pattern data) = 2%nat).
Proof.
  rewrite FindStringSubmatch_find_reference.
  destruct (find_reference data) as [[[pre k] post]|] eqn:Hf.
  - pose proof (find_reference_Some _ _ _ _ Hf) as Hl.
    refine (conj _ (conj _ _)).
    + split; [discriminate|]. intros Hn.
      apply no_match_find_reference in Hn. congruence.
    + intros whole key. split.
      * intros He. injection He as <- <-. exists pre, post. split; [exact Hl | reflexivity].
      * intros (pre' & post' & Hl' & ->).
        apply find_reference_leftmost in Hl'. rewrite Hf in Hl'.
        injection Hl' as _ -> _. reflexivity.
    + right. reflexivity.
  - refine (conj _ (conj _ _)).
    + split; [intros _; apply no_match_find_reference; exact Hf | reflexivity].
    + intros whole key. split; [discriminate|].
      intros (pre' & post' & Hl' & _).
      apply find_reference_leftmost in Hl'. congruence.
    + left. reflexivity.
Qed.

Lemma byte_in_prefix (c : ascii) (pre : string) :
  forall pre' x y,
    pre +:+ x = pre' +:+ String c y ->
    (String.length pre' < String.length pre)%nat ->
    has_byte c pre = true.
Proof.
  induction pre as [|d pre IH]; intros pre' x y He Hl; [simpl in Hl; lia|].
  destruct pre' as [|d' pre'].
  - rewrite app_cons, app_nil_l in He. injection He as -> _.
    simpl. rewrite Ascii.eqb_refl. reflexivity.
  - rewrite !app_cons in He. injection He as _ He. simpl in Hl.
    simpl. rewrite (IH pre' x y He ltac:(lia)). apply orb_true_r.
Qed.

(** A reference written after a text without backtick is the leftmost
    match. *)
Lemma leftmost_match_after (pre key post : string) :
  has_byte backtick pre = false ->
  has_byte backtick key = false ->
  has_byte LF key = false ->
  leftmost_match (pre +:+ reference_to key +:+ post) pre key post.
Proof.
  intros Hpre Hb Hl. unfold reference_to. rewrite whole_match_app.
  split; [split; [reflexivity | exact Hl]|]. split; [exact Hb|].
  intros pre' key' post' [He _].
  destruct (Nat.le_gt_cases (String.length pre) (String.length pre')) as [Hle|Hgt];
    [exact Hle|].
  change ("`##" +:+ key' +:+ String backtick post')
    with (String backtick ("##" +:+ key' +:+ String backtick post')) in He.
  rewrite (byte_in_prefix _ _ _ _ _ He Hgt) in Hpre. discriminate.
Qed.

Lemma ReplaceScopeVariables_after (scope : gmap string string) (pre key post : string) :
  has_byte backtick pre = false ->
  key_name key ->
  ReplaceScopeVariables scope (pre +:+ reference_to key +:+ post)
  = pre +:+ map_get scope key +:+ post.
Proof.
  intros Hpre (Hne & Hb & Hl).
  rewrite ReplaceScopeVariables_find_reference.
  rewrite (find_reference_leftmost _ _ _ _ (leftmost_match_after pre key post Hpre Hb Hl)).
  destruct key; [congruence | reflexivity].
Qed.

(** X2: a reference written after a text without backtick is replaced
    by the value stored for its key, by nothing when the key is not
    stored; the text after the reference is kept as it is, and so is
    the stored value: neither is scanned for further references. *)
Theorem ReplaceScopeVariables_reference (scope : gmap string string)
    (pre key post : string) :
  has_byte backtick pre = false ->
  key_name key ->
  (forall value, scope !! key = Some value ->
     ReplaceScopeVariables scope (pre +:+ reference_to key +:+ post)
     = pre +:+ value +:+ post) /\
  (scope !! key = None ->
   ReplaceScopeVariables scope (pre +:+ reference_to key +:+ post) = pre +:+ post).
Proof.
  intros Hpre Hkey.
  pose proof (ReplaceScopeVariables_after scope pre key post Hpre Hkey) as He.
  unfold map_get in He. split.
  - intros value Hv. rewrite Hv in He. exact He.
  - intros Hn. rewrite Hn in He. exact He.
Qed.

(** A second reference is left in place by one substitution. *)
Lemma ReplaceScopeVariables_reference_witness :
  ReplaceScopeVariables {[ "id" := "42" ]} ("/users/" +:+ reference_to "id" +:+ "?x=`##y`")
  = "/users/" +:+ "42" +:+ "?x=`##y`".
Proof.
  apply (proj1 (ReplaceScopeVariables_reference {[ "id" := "42" ]} "/users/" "id" "?x=`##y`"
                  ltac:(reflexivity)
                  ltac:(literal_key_name))).
  reflexivity.
Defined.

(** X3: substitution applied twice resolves two references, provided
    the texts before them and the first value hold no backtick; applied
    once it resolves only the first. *)
Theorem ReplaceScopeVariables_twice (scope : gmap string string)
    (pre key1 mid key2 post : string) :
  has_byte backtick pre = false ->
  has_byte backtick mid = false ->
  has_byte backtick (map_get scope key1) = false ->
  key_name key1 ->
  key_name key2 ->
  let data := pre +:+ reference_to key1 +:+ mid +:+ reference_to key2 +:+ post in
  ReplaceScopeVariables scope data
  = pre +:+ map_get scope key1 +:+ mid +:+ reference_to key2 +:+ post /\
  ReplaceScopeVariables scope (ReplaceScopeVariables scope data)
  = pre +:+ map_get scope key1 +:+ mid +:+ map_get scope key2 +:+ post.
Proof.
  intros Hpre Hmid Hv Hk1 Hk2 data.
  assert (H1 : ReplaceScopeVariables scope data
               = pre +:+ map_get scope key1 +:+ mid +:+ reference_to key2 +:+ post).
  { unfold data. apply ReplaceScopeVariables_after; assumption. }
  split; [exact H1|]. rewrite H1.
  replace (pre +:+ map_get scope key1 +:+ mid +:+ reference_to key2 +:+ post)
    with ((pre +:+ map_get scope key1 +:+ mid) +:+ reference_to key2 +:+ post)
    by (rewrite !app_assoc; reflexivity).
  rewrite ReplaceScopeVariables_after; [rewrite !app_assoc; reflexivity | | assumption].
  rewrite !has_byte_app, Hpre, Hv, Hmid. reflexivity.
Qed.

Lemma ReplaceScopeVariables_twice_witness :
  ReplaceScopeVariables {[ "a" := "1"; "b" := "2" ]}
    (ReplaceScopeVariables {[ "a" := "1"; "b" := "2" ]}
       ("x=" +:+ reference_to "a" +:+ "&y=" +:+ reference_to "b" +:+ "&z"))
  = "x=" +:+ map_get {[ "a" := "1"; "b" := "2" ]} "a" +:+ "&y=" +:+
    map_get {[ "a" := "1"; "b" := "2" ]} "b" +:+ "&z".
Proof.
  apply (proj2 (ReplaceScopeVariables_twice {[ "a" := "1"; "b" := "2" ]}
                  "x=" "a" "&y=" "b" "&z"
                  ltac:(reflexivity) ltac:(reflexivity) ltac:(vm_compute; reflexivity)
                  ltac:(literal_key_name)
                  ltac:(literal_key_name))).
Defined.

Lemma Contains_eq (s sub : string) :
  Contains s sub =
  if HasPrefix s sub then true
  else match s with
       | EmptyString => false
       | String _ s' => Contains s' sub
       end.
Proof. destruct s; reflexivity. Qed.

(** [strings.Contains] decides occurrence. *)
Lemma Contains_occurs_in (s sub : string) :
  Contains s sub = true <-> occurs_in sub s.
Proof.
  split.
  - induction s as [|c s IH]; rewrite Contains_eq;
      destruct (HasPrefix _ sub) eqn:Hp; try discriminate.
    + intros _. exists EmptyString, (drop (String.length sub) EmptyString).
      apply HasPrefix_inv, Hp.
    + intros _. exists EmptyString, (drop (String.length sub) (String c s)).
      apply HasPrefix_inv, Hp.
    + intros Hc. destruct (IH Hc) as (pre & post & ->).
      exists (String c pre), post. reflexivity.
  - intros (pre & post & ->). induction pre as [|c pre IH]; rewrite Contains_eq.
    + rewrite app_nil_l, HasPrefix_app. reflexivity.
    + rewrite app_cons. destruct (HasPrefix _ sub); [reflexivity | exact IH].
Qed.

(** X4: a text in which the opening marker does not occur is returned
    unchanged, whatever the scope store holds. *)
Theorem ReplaceScopeVariables_unmarked (scope : gmap string string) (data : string) :
  Contains data "`##" = false ->
  ReplaceScopeVariables scope data = data.
Proof.
  intros Hc. apply ReplaceScopeVariables_no_match.
  intros pre key post [He _].
  assert (Ho : occurs_in "`##" data).
  { exists pre, (key +:+ String backtick post). exact He. }
  apply Contains_occurs_in in Ho. congruence.
Qed.

Lemma ReplaceScopeVariables_unmarked_witness :
  ReplaceScopeVariables {[ "id" := "42" ]} "price: `5 ## id`" = "price: `5 ## id`".
Proof.
  apply (ReplaceScopeVariables_unmarked {[ "id" := "42" ]} "price: `5 ## id`").
  reflexivity.
Defined.

End SubstitutionFacts.

(** ** The scope store *)

Module ScopeStoreFacts.
Import Strings StringFacts SubstitutionFacts StepFacts.

(** X5: a stored value is read back by the scope check and by
    substitution; storing overwrites, leaves the other keys alone and
    touches nothing but the scope store. *)
Theorem StoreScopeData_round_trip (ctx : ApiContext) (key value : string) :
  exists ctx',
    StoreScopeData key value ctx = Return (None, ctx') /\
    ctx' = with_scope (scope ctx') ctx /\
    scope ctx' !! key = Some value /\
    (forall other, other <> key -> scope ctx' !! other = scope ctx !! other) /\
    (forall expected,
       TheScopeVariableShouldHaveValue key expected ctx' = Return (None, ctx')
       <-> expected = value) /\
    (forall pre post,
       has_byte backtick pre = false -> key_name key ->
       ReplaceScopeVariables (scope ctx') (pre +:+ reference_to key +:+ post)
       = pre +:+ value +:+ post).
Proof.
  exists (with_scope (<[key := value]> (scope ctx)) ctx).
  refine (conj eq_refl (conj eq_refl (conj _ (conj _ (conj _ _))))).
  - apply lookup_insert_eq.
  - intros other Hne. apply lookup_insert_ne. congruence.
  - intros expected. unfold TheScopeVariableShouldHaveValue. run.
    unfold map_get. rewrite lookup_insert_eq. simpl.
    destruct (String.eqb value expected) eqn:E; simpl.
    + apply String.eqb_eq in E. split; [congruence | reflexivity].
    + apply String.eqb_neq in E. split; [discriminate | congruence].
  - intros pre post Hpre Hkey. simpl scope.
    rewrite (ReplaceScopeVariables_after _ pre key post Hpre Hkey).
    unfold map_get. rewrite lookup_insert_eq. reflexivity.
Qed.

End ScopeStoreFacts.

(** ** The accumulators *)

Module AccumulatorFacts.
Import StepFacts.

Lemma last_value_elem_of (name v : string) (dt : Table) :
  last_value name dt = Some v -> exists rest, (name :: v :: rest) ∈ dt.
Proof.
  induction dt as [|row dt IH]; [discriminate|]. simpl.
  destruct (last_value name dt) as [v'|].
  - intros Hv. injection Hv as ->. destruct (IH eq_refl) as [rest Hin].
    exists rest. right. exact Hin.
  - destruct row as [|n [|v0 rest]]; try discriminate.
    destruct (String.eqb n name) eqn:E; [|discriminate].
    apply String.eqb_eq in E. subst n. intros Hv. injection Hv as ->.
    exists rest. left.
Qed.

(** In a table without repeated names every row decides its name. *)
Lemma last_value_NoDup (name v : string) (rest : list string) (dt : Table) :
  NoDup (row_name <$> dt) ->
  (name :: v :: rest) ∈ dt ->
  last_value name dt = Some v.
Proof.
  induction dt as [|row dt IH]; intros Hnd Hin.
  - inversion Hin.
  - rewrite fmap_cons in Hnd. apply NoDup_cons in Hnd as [Hfresh Hnd]. simpl.
    apply elem_of_cons in Hin as [<-|Hin].
    + destruct (last_value name dt) as [v'|] eqn:Hl.
      * exfalso. apply Hfresh. destruct (last_value_elem_of _ _ _ Hl) as [rest' Hin'].
        apply list_elem_of_fmap. exists (name :: v' :: rest'). split; [reflexivity | exact Hin'].
      * rewrite String.eqb_refl. reflexivity.
    + rewrite (IH Hnd Hin). reflexivity.
Qed.

Lemma set_rows_same_rows (sc acc : gmap string string) (dt dt' : Table) :
  NoDup (row_name <$> dt) ->
  NoDup (row_name <$> dt') ->
  (forall row, row ∈ dt <-> row ∈ dt') ->
  set_rows sc dt acc = set_rows sc dt' acc.
Proof.
  intros Hnd Hnd' Hsame. apply map_eq. intros name.
  rewrite !set_rows_lookup.
  destruct (last_value name dt) as [v|] eqn:Hl.
  - destruct (last_value_elem_of _ _ _ Hl) as [rest Hin].
    apply Hsame in Hin. rewrite (last_value_NoDup _ _ _ _ Hnd' Hin). reflexivity.
  - destruct (last_value name dt') as [v'|] eqn:Hl'; [|reflexivity].
    destruct (last_value_elem_of _ _ _ Hl') as [rest Hin].
    apply Hsame in Hin. rewrite (last_value_NoDup _ _ _ _ Hnd Hin) in Hl. discriminate.
Qed.

(** X6: the accumulators are maps: for two tables with the same rows
    and no repeated name the table steps end in the same context, two
    single steps for different names commute, and a second write to
    the same name replaces the first. *)
Theorem accumulators_order (ctx : ApiContext) :
  (forall dt dt',
     two_columns dt -> two_columns dt' ->
     NoDup (row_name <$> dt) -> NoDup (row_name <$> dt') ->
     (forall row, row ∈ dt <-> row ∈ dt') ->
     ISetHeadersTo dt ctx = ISetHeadersTo dt' ctx /\
     ISetQueryParamsTo dt ctx = ISetQueryParamsTo dt' ctx) /\
  (forall n1 v1 n2 v2, n1 <> n2 ->
     (ISetHeaderWithValue n1 v1 ;; ISetHeaderWithValue n2 v2) ctx
     = (ISetHeaderWithValue n2 v2 ;; ISetHeaderWithValue n1 v1) ctx /\
     (ISetQueryParamWithValue n1 v1 ;; ISetQueryParamWithValue n2 v2) ctx
     = (ISetQueryParamWithValue n2 v2 ;; ISetQueryParamWithValue n1 v1) ctx) /\
  (forall n v1 v2,
     (ISetHeaderWithValue n v1 ;; ISetHeaderWithValue n v2) ctx
     = ISetHeaderWithValue n v2 ctx /\
     (ISetQueryParamWithValue n v1 ;; ISetQueryParamWithValue n v2) ctx
     = ISetQueryParamWithValue n v2 ctx).
Proof.
  refine (conj _ (conj _ _)).
  - intros dt dt' Hwf Hwf' Hnd Hnd' Hsame.
    unfold ISetHeadersTo, ISetQueryParamsTo, bind.
    rewrite !ISetHeadersTo_rows_eq, !ISetQueryParamsTo_rows_eq by assumption.
    rewrite (set_rows_same_rows _ (headers ctx) dt dt'),
            (set_rows_same_rows _ (queryParams ctx) dt dt') by assumption.
    split; reflexivity.
  - intros n1 v1 n2 v2 Hne.
    unfold ISetHeaderWithValue, ISetQueryParamWithValue. run.
    rewrite (insert_insert_ne (headers ctx) n1 n2 v1 v2 Hne).
    rewrite (insert_insert_ne (queryParams ctx) n1 n2 _ _ Hne).
    split; reflexivity.
  - intros n v1 v2.
    unfold ISetHeaderWithValue, ISetQueryParamWithValue. run.
    rewrite !insert_insert_eq. split; reflexivity.
Qed.

(** Two orders of the same two rows. *)
Lemma accumulators_order_witness :
  ISetHeadersTo [["Accept"; "text/html"]; ["X-Id"; "`##id`"]]
    (with_scope {[ "id" := "42" ]} (New "https://example.com"))
  = ISetHeadersTo [["X-Id"; "`##id`"]; ["Accept"; "text/html"]]
      (with_scope {[ "id" := "42" ]} (New "https://example.com")).
Proof.
  refine (proj1 (proj1 (accumulators_order
                          (with_scope {[ "id" := "42" ]} (New "https://example.com")))
                   [["Accept"; "text/html"]; ["X-Id"; "`##id`"]]
                   [["X-Id"; "`##id`"]; ["Accept"; "text/html"]] _ _ _ _ _)).
  - repeat constructor.
  - repeat constructor.
  - apply (bool_decide_unpack _). vm_compute. exact I.
  - apply (bool_decide_unpack _). vm_compute. exact I.
  - intros row. rewrite !elem_of_cons. rewrite !elem_of_nil. tauto.
Defined.

End AccumulatorFacts.

(** ** Sending *)

Module SendFacts.
Import StepFacts.

Section Sending.
Context {lib : Platform}.

Lemma range_Header_Set_Some (req : http_Request) (hs : gmap string string) :
  exists req',
    range_Header_Set (Some req) hs = Return (Some req') /\
    with_accumulated_headers hs req req'.
Proof.
  unfold range_Header_Set.
  apply (map_fold_weak_ind
           (fun acc (m : gmap string string) =>
              exists req', acc = Return (Some req') /\ with_accumulated_headers m req req')).
  - exists req. split; [reflexivity|].
    repeat split; try reflexivity. intros name v Hv. rewrite lookup_empty in Hv. discriminate.
  - intros i x m acc Hfresh (req' & -> & Hm & Hu & Hq & Hb & Hset & Hkeep).
    eexists. split; [reflexivity|].
    refine (conj Hm (conj Hu (conj Hq (conj Hb (conj _ _))))); simpl.
    + intros name v Hv Huniq. unfold Header_Set.
      destruct (decide (i = name)) as [->|Hne].
      * rewrite lookup_insert_eq in Hv. injection Hv as ->. apply lookup_insert_eq.
      * rewrite lookup_insert_ne in Hv by exact Hne.
        rewrite lookup_insert_ne.
        -- apply Hset; [exact Hv|]. intros name' Hsome Hcanon.
           apply Huniq; [|exact Hcanon].
           destruct (decide (i = name')) as [->|Hne'];
             [rewrite lookup_insert_eq; eauto | rewrite lookup_insert_ne by exact Hne'; exact Hsome].
        -- intros Hcanon. apply Hne. apply Huniq; [|exact Hcanon].
           rewrite lookup_insert_eq. eauto.
    + intros key Hnone. unfold Header_Set. rewrite lookup_insert_ne.
      * apply Hkeep. intros name Hsome. apply Hnone.
        destruct (decide (i = name)) as [->|Hne];
          [rewrite lookup_insert_eq; eauto | rewrite lookup_insert_ne by exact Hne; exact Hsome].
      * apply Hnone. rewrite lookup_insert_eq. eauto.
Qed.






(** The loop over the form rows leaves the context as it is. *)
Lemma write_form_rows_ctx (rows : Table) :
  forall (w : multipart_Writer) (ctx ctx' : ApiContext) (x : error + multipart_Writer),
    write_form_rows rows w ctx = Return (x, ctx') -> ctx' = ctx.
Proof.
  induction rows as [|row rows IH]; intros w ctx ctx' x.
  - simpl. run. intros He. injection He as _ <-. reflexivity.
  - simpl. run.
    destruct (cell row 0) as [key|p]; [|discriminate]. simpl.
    destruct (cell row 1) as [raw|p]; [|discriminate]. simpl.
    destruct (cell row 2) as [typeOfField|p]; [|discriminate]. simpl.
    destruct (String.eqb typeOfField "text").
    { destruct (WriteField w key _) as [w1 [e|]];
        [intros He; injection He as _ <-; reflexivity | apply IH]. }
    destruct (String.eqb typeOfField "file"); [|apply IH].
    destruct (os_Open _) as [e|file]; [discriminate|].
    destruct (CreateFormFile w key _) as [e|w1];
      [intros He; injection He as _ <-; reflexivity|].
    destruct (io_Copy w1 file) as [w2 [e|]];
      [intros He; injection He as _ <-; reflexivity | apply IH].
Qed.

Lemma send_and_capture_settings (req : http_Request) (ctx ctx' : ApiContext)
    (e : option error) :
  send_and_capture req ctx = Return (e, ctx') -> same_settings ctx ctx'.
Proof.
  unfold send_and_capture, logRequest, logResponse. run.
  destruct (client_Do req) as [err|resp].
  - intros He. injection He as _ <-. repeat split.
  - run. destruct (resp_Body resp) as [err|body];
      intros He; injection He as _ <-; repeat split.
Qed.

Lemma same_settings_refl (ctx : ApiContext) : same_settings ctx ctx.
Proof. repeat split. Qed.

(** X10: whatever a send step returns, it has changed nothing but the
    captured request and response: the accumulated headers and query
    parameters, the scope store and the configuration are those of
    before, so they also go with the next request. *)
Theorem send_steps_keep_settings (ctx ctx' : ApiContext) (e : option error)
    (method uri : string) :
  (ISendRequestTo method uri ctx = Return (e, ctx') -> same_settings ctx ctx') /\
  (forall requestBody,
     ISendRequestToWithBody method uri requestBody ctx = Return (e, ctx') ->
     same_settings ctx ctx') /\
  (forall table,
     ISendRequestToWithFormBody method uri table ctx = Return (e, ctx') ->
     same_settings ctx ctx').
Proof.
  refine (conj _ (conj _ _)).
  - unfold ISendRequestTo. run.
    destruct (http_NewRequest _ _ _) as [err|req].
    + intros He. injection He as _ <-. apply same_settings_refl.
    + destruct (range_Header_Set_Some req (headers ctx)) as (req' & -> & _). simpl.
      apply send_and_capture_settings.
  - intros requestBody. unfold ISendRequestToWithBody. run.
    destruct (http_NewRequest _ _ _) as [err|req].
    + destruct (range_Header_Set None (headers ctx)) as [[r|]|p]; simpl; try discriminate;
        intros He; injection He as _ <-; apply same_settings_refl.
    + destruct (range_Header_Set_Some req (headers ctx)) as (req' & -> & _). simpl.
      apply send_and_capture_settings.
  - intros table. unfold ISendRequestToWithFormBody.
    unfold bind at 1. unfold get at 1. unfold bind at 1.
    destruct (write_form_rows table multipart_NewWriter ctx) as [[x ctx1]|p] eqn:Hrows;
      [|discriminate].
    apply write_form_rows_ctx in Hrows. subst ctx1.
    destruct x as [err|w].
    { run. intros He. injection He as _ <-. apply same_settings_refl. }
    destruct (Writer_Close w) as [w' [err|]].
    { run. intros He. injection He as _ <-. apply same_settings_refl. }
    destruct (http_NewRequest _ _ _) as [err|req].
    { run. intros He. injection He as _ <-. apply same_settings_refl. }
    match goal with
    | |- context [range_Header_Set (Some ?r) ?hs] =>
        destruct (range_Header_Set_Some r hs) as (req' & Hrange & _)
    end.
    run. rewrite Hrange. simpl. apply send_and_capture_settings.
Qed.

(** X11: in [ISendRequestTo] and [ISendRequestToWithFormBody] the error
    of [http.NewRequest] is looked at before the headers are written:
    it is returned with the context untouched, whatever headers have
    been accumulated. *)
Theorem request_error_returned (ctx : ApiContext) (method uri : string) (err : error) :
  (http_NewRequest method (baseURL ctx +:+ uri) None = inl err ->
   ISendRequestTo method uri ctx = Return (Some err, ctx)) /\
  (forall table w w',
     write_form_rows table multipart_NewWriter ctx = Return (inr w, ctx) ->
     Writer_Close w = (w', None) ->
     http_NewRequest method (baseURL ctx +:+ uri) (Some (Buffer_Bytes w')) = inl err ->
     ISendRequestToWithFormBody method uri table ctx = Return (Some err, ctx)).
Proof.
  split.
  - intros Hnew. unfold ISendRequestTo. run. rewrite Hnew. reflexivity.
  - intros table w w' Hrows Hclose Hnew. unfold ISendRequestToWithFormBody.
    unfold bind at 1. unfold get at 1. unfold bind at 1. rewrite Hrows.
    rewrite Hclose, Hnew. reflexivity.
Qed.

Lemma form_step_rows (ctx : ApiContext) (method uri : string) (table table' : Table) :
  write_form_rows table multipart_NewWriter ctx
  = write_form_rows table' multipart_NewWriter ctx ->
  ISendRequestToWithFormBody method uri table ctx
  = ISendRequestToWithFormBody method uri table' ctx.
Proof.
  intros He. unfold ISendRequestToWithFormBody, bind, get. rewrite He. reflexivity.
Qed.

(** X12: the rows of a form table.  A row whose kind is neither [text]
    nor [file] is passed over without an error, so the step behaves as
    if the row were not there; a row with fewer than three cells makes
    the step panic on the index, whatever its kind would have been. *)
Theorem form_rows_edges (ctx : ApiContext) (method uri : string)
    (before rest : Table) (w : multipart_Writer) :
  write_form_rows before multipart_NewWriter ctx = Return (inr w, ctx) ->
  (forall key value kind more,
     kind <> "text" -> kind <> "file" ->
     ISendRequestToWithFormBody method uri
       (before ++ (key :: value :: kind :: more) :: rest) ctx
     = ISendRequestToWithFormBody method uri (before ++ rest) ctx) /\
  (forall row, (length row < 3)%nat ->
     ISendRequestToWithFormBody method uri (before ++ row :: rest) ctx
     = Panic index_out_of_range).
Proof.
  intros Hbefore. split.
  - intros key value kind more Ht Hf. apply form_step_rows.
    rewrite !write_form_rows_app, Hbefore. simpl. run.
    apply String.eqb_neq in Ht, Hf. rewrite Ht, Hf. reflexivity.
  - intros row Hlen. unfold ISendRequestToWithFormBody.
    unfold bind at 1. unfold get at 1. unfold bind at 1.
    rewrite write_form_rows_app, Hbefore.
    destruct row as [|c0 [|c1 [|c2 row]]]; simpl in Hlen; try lia; reflexivity.
Qed.

End Sending.




(** The context after the GET of the repository's tests. *)
Lemma send_steps_keep_settings_witness :
  same_settings (New "https://example.com") (Reference.after_get Reference.json_path_body).
Proof.
  apply (proj1 (send_steps_keep_settings (lib := Reference.fixture)
                  (New "https://example.com")
                  (Reference.after_get Reference.json_path_body) None "GET" "/")).
  vm_compute. reflexivity.
Defined.

(** A method that is not a token: the GET returns the error although a
    header is accumulated. *)
Lemma request_error_returned_witness :
  ISendRequestTo (lib := Reference.fixture) "BAD METHOD" "/items"
    (with_headers {[ "Content-Type" := "application/json" ]} (New "https://example.com"))
  = Return (Some (errorString ("net/http: invalid method " +:+ Reference.quoted "BAD METHOD")),
            with_headers {[ "Content-Type" := "application/json" ]}
              (New "https://example.com")).
Proof.
  apply (proj1 (request_error_returned (lib := Reference.fixture)
                  (with_headers {[ "Content-Type" := "application/json" ]}
                     (New "https://example.com"))
                  "BAD METHOD" "/items" _)).
  vm_compute. reflexivity.
Defined.

(** A row of kind [json] between two text rows. *)
Lemma form_rows_edges_witness :
  ISendRequestToWithFormBody (lib := Reference.fixture) "POST" "/upload"
    ([["a"; "1"; "text"]] ++ ["b"; "2"; "json"] :: [["c"; "3"; "text"]])
    (New "https://example.com")
  = ISendRequestToWithFormBody (lib := Reference.fixture) "POST" "/upload"
      ([["a"; "1"; "text"]] ++ [["c"; "3"; "text"]])
      (New "https://example.com").
Proof.
  apply (proj1 (form_rows_edges (lib := Reference.fixture) (New "https://example.com")
                  "POST" "/upload" [["a"; "1"; "text"]] [["c"; "3"; "text"]]
                  [("a", "", "1")] ltac:(vm_compute; reflexivity))
           "b" "2" "json" []).
  - discriminate.
  - discriminate.
Defined.

End SendFacts.

(** ** Assertions and stores on a captured response *)

Module AssertionFacts.
Import Strings StringFacts SubstitutionFacts StepFacts.

(** The end of every path through an assertion that returns: the
    context handed back is the one that was given. *)
Ltac same_context :=
  let He := fresh "He" in
  intros He; first [discriminate He | injection He as _ <-; reflexivity].

Section Assertions.
Context {lib : Platform}.

(** X13: no assertion step changes the context: whenever one returns,
    with an error or without, the context is the one it was given. *)
Theorem assertions_keep_context (ctx ctx' : ApiContext) (e : option error) :
  (forall statusCode, TheResponseCodeShouldBe statusCode ctx = Return (e, ctx') -> ctx' = ctx) /\
  (TheResponseShouldBeAValidJSON ctx = Return (e, ctx') -> ctx' = ctx) /\
  (forall pathExpr expectedValue,
     TheJSONPathShouldHaveValue pathExpr expectedValue ctx = Return (e, ctx') -> ctx' = ctx) /\
  (forall pathExpr pattern,
     TheJSONPathShouldMatch pathExpr pattern ctx = Return (e, ctx') -> ctx' = ctx) /\
  (forall pathExpr, TheJSONPathShouldBePresent pathExpr ctx = Return (e, ctx') -> ctx' = ctx) /\
  (forall pathExpr expectedCount,
     TheJSONPathHaveCount pathExpr expectedCount ctx = Return (e, ctx') -> ctx' = ctx) /\
  (forall body, TheResponseShouldMatchJSON body ctx = Return (e, ctx') -> ctx' = ctx) /\
  (forall sub, TheResponseBodyShouldContain sub ctx = Return (e, ctx') -> ctx' = ctx) /\
  (forall pattern, TheResponseBodyShouldMatch pattern ctx = Return (e, ctx') -> ctx' = ctx) /\
  (forall name expectedValue,
     TheResponseHeaderShouldHaveValue name expectedValue ctx = Return (e, ctx') -> ctx' = ctx) /\
  (forall path, TheResponseShouldMatchJsonSchema path ctx = Return (e, ctx') -> ctx' = ctx) /\
  (forall scopeKeyName expectedValue,
     TheScopeVariableShouldHaveValue scopeKeyName expectedValue ctx = Return (e, ctx') ->
     ctx' = ctx).
Proof.
  refine (conj _ (conj _ (conj _ (conj _ (conj _ (conj _ (conj _ (conj _ (conj _
            (conj _ (conj _ _)))))))))));
    intros.
  - revert H. unfold TheResponseCodeShouldBe. run.
    destruct (lastResponse ctx) as [r|]; [|discriminate].
    destruct (negb _); same_context.
  - revert H. unfold TheResponseShouldBeAValidJSON. run.
    destruct (lastResponse ctx) as [r|]; [|discriminate].
    destruct (json_Unmarshal _); same_context.
  - revert H. unfold TheJSONPathShouldHaveValue. run.
    destruct (lastResponse ctx) as [r|]; [|discriminate].
    destruct (json_Unmarshal (Body r)) as [err|data]; [same_context|].
    destruct (jsonpath_Get pathExpr data) as [err|actual]; [same_context|].
    simpl. destruct (Reflect.TypeOf_Kind actual) as [k|p]; [|discriminate]. simpl.
    destruct (parse_expected k _) as [err|parsed]; [same_context|].
    destruct (interface_eq actual parsed) as [[|]|p]; simpl; same_context.
  - revert H. unfold TheJSONPathShouldMatch. run.
    destruct (lastResponse ctx) as [r|]; [|discriminate].
    destruct (json_Unmarshal (Body r)) as [err|data]; [same_context|].
    destruct (jsonpath_Get pathExpr data) as [err|value]; [same_context|].
    match goal with
    | |- context [match ?x with inl _ => _ | inr _ => _ end] =>
        destruct x as [err|[|]]
    end; same_context.
  - revert H. unfold TheJSONPathShouldBePresent. run.
    destruct (lastResponse ctx) as [r|]; [|discriminate].
    destruct (json_Unmarshal (Body r)) as [err|data]; [same_context|].
    destruct (jsonpath_Get pathExpr data) as [err|value]; [same_context|].
    destruct value; same_context.
  - revert H. unfold TheJSONPathHaveCount. run.
    destruct (lastResponse ctx) as [r|]; [|discriminate].
    destruct (json_Unmarshal (Body r)) as [err|data]; [same_context|].
    destruct (jsonpath_Get pathExpr data) as [err|value]; [same_context|].
    destruct (negb (Kind_is_Slice _)); [same_context|].
    destruct (negb (_ =? _)%Z); same_context.
  - revert H. unfold TheResponseShouldMatchJSON. run.
    destruct (lastResponse ctx) as [r|]; [|discriminate].
    destruct (isEqualJson _ _) as [err|[|]]; same_context.
  - revert H. unfold TheResponseBodyShouldContain. run.
    destruct (lastResponse ctx) as [r|]; [|discriminate].
    destruct (negb (Contains _ _)); same_context.
  - revert H. unfold TheResponseBodyShouldMatch. run.
    destruct (lastResponse ctx) as [r|]; [|discriminate].
    destruct (regexp_MatchString _ _) as [err|[|]]; same_context.
  - revert H. unfold TheResponseHeaderShouldHaveValue. run.
    destruct (lastResponse ctx) as [r|]; [|discriminate].
    destruct (negb (String.eqb _ _)); same_context.
  - revert H. unfold TheResponseShouldMatchJsonSchema. run.
    destruct (os_Stat_IsNotExist _); [same_context|].
    destruct (ioutil_ReadFile _) as [err|schemaContents]; [same_context|].
    run. destruct (lastResponse ctx) as [r|]; [|discriminate].
    destruct (gojsonschema_Validate _ _) as [err|[|v vs]]; same_context.
  - revert H. unfold TheScopeVariableShouldHaveValue. run.
    destruct (negb (String.eqb _ _)); same_context.
Qed.

(** X14: a body that does not decode and a path that does not
    evaluate fail every JSON step with the error of the library, as it
    is; the store step then stores nothing.  The validity check
    succeeds exactly when the body decodes. *)
Theorem json_errors_returned (ctx : ApiContext) (r : ApiResponse) :
  lastResponse ctx = Some r ->
  (forall err, json_Unmarshal (Body r) = inl err ->
     TheResponseShouldBeAValidJSON ctx = Return (Some err, ctx) /\
     (forall pathExpr expectedValue,
        TheJSONPathShouldHaveValue pathExpr expectedValue ctx = Return (Some err, ctx)) /\
     (forall pathExpr pattern,
        TheJSONPathShouldMatch pathExpr pattern ctx = Return (Some err, ctx)) /\
     (forall pathExpr, TheJSONPathShouldBePresent pathExpr ctx = Return (Some err, ctx)) /\
     (forall pathExpr expectedCount,
        TheJSONPathHaveCount pathExpr expectedCount ctx = Return (Some err, ctx)) /\
     (forall pathExpr scopeKeyName,
        StoreJsonPathValue pathExpr scopeKeyName ctx = Return (Some err, ctx))) /\
  (forall data pathExpr err,
     json_Unmarshal (Body r) = inr data ->
     jsonpath_Get pathExpr data = inl err ->
     (forall expectedValue,
        TheJSONPathShouldHaveValue pathExpr expectedValue ctx = Return (Some err, ctx)) /\
     (forall pattern, TheJSONPathShouldMatch pathExpr pattern ctx = Return (Some err, ctx)) /\
     TheJSONPathShouldBePresent pathExpr ctx = Return (Some err, ctx) /\
     (forall expectedCount,
        TheJSONPathHaveCount pathExpr expectedCount ctx = Return (Some err, ctx)) /\
     (forall scopeKeyName,
        StoreJsonPathValue pathExpr scopeKeyName ctx = Return (Some err, ctx))) /\
  (TheResponseShouldBeAValidJSON ctx = Return (None, ctx)
   <-> exists data, json_Unmarshal (Body r) = inr data).
Proof.
  intros Hr. refine (conj _ (conj _ _)).
  - intros err Hd.
    refine (conj _ (conj _ (conj _ (conj _ (conj _ _))))); intros;
      unfold TheResponseShouldBeAValidJSON, TheJSONPathShouldHaveValue,
        TheJSONPathShouldMatch, TheJSONPathShouldBePresent, TheJSONPathHaveCount,
        StoreJsonPathValue;
      run; rewrite Hr, Hd; reflexivity.
  - intros data pathExpr err Hd Hp.
    refine (conj _ (conj _ (conj _ (conj _ _)))); intros;
      unfold TheJSONPathShouldHaveValue, TheJSONPathShouldMatch,
        TheJSONPathShouldBePresent, TheJSONPathHaveCount, StoreJsonPathValue;
      run; rewrite Hr, Hd, Hp; reflexivity.
  - unfold TheResponseShouldBeAValidJSON. run. rewrite Hr.
    destruct (json_Unmarshal (Body r)) as [err|data]; split.
    + discriminate.
    + intros [data Hd]. discriminate.
    + intros _. exists data. reflexivity.
    + reflexivity.
Qed.

(** X15: the presence check succeeds exactly when the value at the path
    is not null, and the pattern check matches a string as it is and
    any other value as [%v] prints it; an invalid pattern is returned
    as the error of [regexp]. *)
Theorem presence_and_pattern (ctx : ApiContext) (r : ApiResponse) (data value : any)
    (pathExpr : string) :
  lastResponse ctx = Some r ->
  json_Unmarshal (Body r) = inr data ->
  jsonpath_Get pathExpr data = inr value ->
  succeeds_iff (TheJSONPathShouldBePresent pathExpr ctx) ctx (value <> nil_value) /\
  (forall pattern,
     match regexp_MatchString pattern (text_of value) with
     | inl err => TheJSONPathShouldMatch pathExpr pattern ctx = Return (Some err, ctx)
     | inr matched =>
         succeeds_iff (TheJSONPathShouldMatch pathExpr pattern ctx) ctx (matched = true)
     end).
Proof.
  intros Hr Hd Hv. split.
  - unfold TheJSONPathShouldBePresent. run. rewrite Hr, Hd, Hv.
    destruct value; split;
      try (split; [congruence | reflexivity]);
      try (intros Hn; exfalso; apply Hn; discriminate).
    + split; [discriminate | congruence].
    + intros _. eexists. reflexivity.
  - intros pattern.
    assert (He : TheJSONPathShouldMatch pathExpr pattern ctx =
                 match regexp_MatchString pattern (text_of value) with
                 | inl err => Return (Some err, ctx)
                 | inr matched =>
                     if negb matched
                     then Return (Errorf (fmt_s value +:+ " does not match: " +:+ pattern), ctx)
                     else Return (None, ctx)
                 end).
    { unfold TheJSONPathShouldMatch. run. rewrite Hr, Hd, Hv.
      destruct value; simpl;
        match goal with
        | |- context [regexp_MatchString ?p ?t] =>
            destruct (regexp_MatchString p t) as [err|[|]]; reflexivity
        end. }
    rewrite He. destruct (regexp_MatchString pattern (text_of value)) as [err|matched];
      [reflexivity|].
    apply succeeds_iff_intro. tauto.
Qed.


Lemma ParseBool_spellings (str : string) :
  (forall b, Strconv.ParseBool str = inr b <-> str ∈ spellings b) /\
  (Strconv.ParseBool str = inl (NumError "ParseBool" str ErrSyntax)
   <-> (str ∉ spellings true) /\ (str ∉ spellings false)).
Proof.
  unfold Strconv.ParseBool, Strconv.syntaxError.
  change ["1"; "t"; "T"; "TRUE"; "true"; "True"] with (spellings true).
  change ["0"; "f"; "F"; "FALSE"; "false"; "False"] with (spellings false).
  assert (Hdis : str ∈ spellings true -> str ∈ spellings false -> False).
  { intros Ht Hf. unfold spellings in Ht.
    repeat (apply elem_of_cons in Ht as [-> | Ht];
            [ apply (bool_decide_pack _) in Hf; vm_compute in Hf; exact Hf | idtac ]).
    inversion Ht. }
  destruct (bool_decide (str ∈ spellings true)) eqn:Et.
  - apply bool_decide_eq_true in Et. split.
    + intros [|]; split.
      * intros _. exact Et.
      * reflexivity.
      * discriminate.
      * intros Hf. destruct (Hdis Et Hf).
    + split; [discriminate | tauto].
  - apply bool_decide_eq_false in Et.
    destruct (bool_decide (str ∈ spellings false)) eqn:Ef.
    + apply bool_decide_eq_true in Ef. split.
      * intros [|]; split.
        -- discriminate.
        -- intros Ht. destruct (Et Ht).
        -- intros _. exact Ef.
        -- reflexivity.
      * split; [discriminate | tauto].
    + apply bool_decide_eq_false in Ef. split.
      * intros [|]; split; try discriminate; tauto.
      * tauto.
Qed.

(** X16: against a JSON boolean the value check accepts every spelling
    [strconv.ParseBool] knows: it succeeds exactly when the substituted
    expected text is one of the six spellings of the value, and a text
    that is no spelling of a boolean is returned as a syntax error. *)
Theorem value_check_of_a_boolean (ctx : ApiContext) (r : ApiResponse) (data : any)
    (b : bool) (pathExpr expectedValue : string) :
  lastResponse ctx = Some r ->
  json_Unmarshal (Body r) = inr data ->
  jsonpath_Get pathExpr data = inr (of_bool b) ->
  let expected := ReplaceScopeVariables (scope ctx) expectedValue in
  let result := TheJSONPathShouldHaveValue pathExpr expectedValue ctx in
  (result = Return (None, ctx) <-> expected ∈ spellings b) /\
  (expected ∈ spellings (negb b) -> exists msg, result = Return (Errorf msg, ctx)) /\
  (expected ∉ spellings true -> expected ∉ spellings false ->
   result = Return (Some (NumError "ParseBool" expected ErrSyntax), ctx)).
Proof.
  intros Hr Hd Ha expected result.
  pose proof (TheJSONPathShouldHaveValue_eval ctx r data _ pathExpr expectedValue Hr Hd Ha)
    as He. fold expected result in He. simpl in He.
  destruct (ParseBool_spellings expected) as [Hb Hbad].
  destruct (Strconv.ParseBool expected) as [err|b'] eqn:Hp.
  - assert (Hnone : forall c, expected ∉ spellings c).
    { intros c Hin. apply Hb in Hin. discriminate. }
    refine (conj _ (conj _ _)).
    + rewrite He. split; [discriminate | intros Hin; destruct (Hnone _ Hin)].
    + intros Hin. destruct (Hnone _ Hin).
    + intros Ht Hf. rewrite He.
      pose proof (proj2 Hbad (conj Ht Hf)) as Herr. injection Herr as ->. reflexivity.
  - pose proof (proj1 (Hb b') eq_refl) as Hin.
    assert (Hother : expected ∉ spellings (negb b')).
    { intros Hin'. apply Hb in Hin'. destruct b'; discriminate. }
    refine (conj _ (conj _ _)).
    + rewrite He. destruct b, b'; simpl; split; try tauto; try discriminate;
        intros Hin'; destruct (Hother Hin').
    + intros Hin'. rewrite He. destruct b, b'; simpl in *;
        try (destruct (Hother Hin')); eexists; reflexivity.
    + intros Ht Hf. destruct b'; [destruct (Ht Hin) | destruct (Hf Hin)].
Qed.

(** With a response captured the status check succeeds exactly
    when the codes are equal, and the error of a mismatch ends with the
    captured body, unchanged. *)
Theorem TheResponseCodeShouldBe_spec (ctx : ApiContext) (r : ApiResponse) (statusCode : Z) :
  lastResponse ctx = Some r ->
  (TheResponseCodeShouldBe statusCode ctx = Return (None, ctx) <-> statusCode = StatusCode r) /\
  (statusCode <> StatusCode r ->
   exists explanation,
     TheResponseCodeShouldBe statusCode ctx
     = Return (Errorf (explanation +:+ Body r), ctx)).
Proof.
  intros Hr. unfold TheResponseCodeShouldBe. run. rewrite Hr.
  destruct (Z.eqb_spec statusCode (StatusCode r)) as [Heq|Hne]; simpl.
  - split; [tauto | congruence].
  - split; [split; [discriminate | congruence]|].
    intros _.
    exists ("expected status code to be " +:+ fmt_d statusCode +:+ ", but actual is " +:+
            fmt_d (StatusCode r) +:+ "." +:+ newline +:+ " Response body: ").
    rewrite !app_assoc. reflexivity.
Qed.


(** X18: [StoreJsonPathValue] stores the value at the path as text: a
    string as it is, any other value, a null too, as [%v] prints it.
    The scope check then succeeds for exactly that text.  Without a
    captured response the step panics. *)
Theorem StoreJsonPathValue_stores (ctx : ApiContext) (pathExpr scopeKeyName : string) :
  (lastResponse ctx = None ->
   StoreJsonPathValue pathExpr scopeKeyName ctx = Panic nil_dereference) /\
  (forall r data value,
     lastResponse ctx = Some r ->
     json_Unmarshal (Body r) = inr data ->
     jsonpath_Get pathExpr data = inr value ->
     let ctx' := with_scope (<[scopeKeyName := text_of value]> (scope ctx)) ctx in
     StoreJsonPathValue pathExpr scopeKeyName ctx = Return (None, ctx') /\
     forall expectedValue,
       TheScopeVariableShouldHaveValue scopeKeyName expectedValue ctx' = Return (None, ctx')
       <-> expectedValue = text_of value).
Proof.
  split.
  - intros Hn. unfold StoreJsonPathValue. run. rewrite Hn. reflexivity.
  - intros r data value Hr Hd Hv ctx'. split.
    + unfold StoreJsonPathValue. run. rewrite Hr, Hd, Hv.
      destruct value; reflexivity.
    + intros expectedValue. unfold TheScopeVariableShouldHaveValue. run.
      unfold map_get. rewrite lookup_insert_eq. simpl.
      destruct (String.eqb (text_of value) expectedValue) eqn:E; simpl.
      * apply String.eqb_eq in E. split; [congruence | reflexivity].
      * apply String.eqb_neq in E. split; [discriminate | congruence].
Qed.

(** X19: the containment check looks for the substituted text in the
    body without its leading and trailing line feeds, and succeeds
    exactly when the text occurs there; the error shows the text as it
    was written in the step.  A reference to a key that is not stored
    substitutes to nothing, and the check of it always succeeds. *)
Theorem TheResponseBodyShouldContain_spec (ctx : ApiContext) (r : ApiResponse)
    (sub : string) :
  lastResponse ctx = Some r ->
  let body := Trim (Body r) LF in
  ((TheResponseBodyShouldContain sub ctx = Return (None, ctx)
    <-> occurs_in (ReplaceScopeVariables (scope ctx) sub) body) /\
   (~ occurs_in (ReplaceScopeVariables (scope ctx) sub) body ->
    TheResponseBodyShouldContain sub ctx
    = Return (Errorf (body +:+ " does not contain " +:+ sub), ctx))) /\
  (forall key,
     key_name key -> scope ctx !! key = None ->
     TheResponseBodyShouldContain (reference_to key) ctx = Return (None, ctx)).
Proof.
  intros Hr body.
  assert (He : forall s,
             TheResponseBodyShouldContain s ctx =
             if negb (Contains body (ReplaceScopeVariables (scope ctx) s))
             then Return (Errorf (body +:+ " does not contain " +:+ s), ctx)
             else Return (None, ctx)).
  { intros s. unfold TheResponseBodyShouldContain. run. rewrite Hr. fold body.
    destruct (negb _); reflexivity. }
  split.
  - rewrite He.
    destruct (Contains body _) eqn:Ec; simpl.
    + apply Contains_occurs_in in Ec. split; [tauto|]. intros Hn. destruct (Hn Ec).
    + assert (Hn : ~ occurs_in (ReplaceScopeVariables (scope ctx) sub) body).
      { intros Ho. apply Contains_occurs_in in Ho. congruence. }
      split; [split; [discriminate | intros Ho; destruct (Hn Ho)] | reflexivity].
  - intros key Hkey Hnone. rewrite He.
    pose proof (ReplaceScopeVariables_after (scope ctx) "" key "" eq_refl Hkey) as Hres.
    rewrite app_nil_l, app_nil_r in Hres. rewrite Hres.
    unfold map_get. rewrite Hnone. simpl.
    rewrite Contains_eq. reflexivity.
Qed.

Lemma TrimLeft_snoc (c : ascii) (s : string) :
  TrimLeft c (s +:+ String c "") =
  match TrimLeft c s with
  | EmptyString => EmptyString
  | t => t +:+ String c ""
  end.
Proof.
  induction s as [|d s IH].
  - simpl. rewrite Ascii.eqb_refl. reflexivity.
  - rewrite app_cons. simpl. destruct (Ascii.eqb d c); [exact IH | reflexivity].
Qed.

Lemma TrimRight_snoc (c : ascii) (s : string) :
  TrimRight c (s +:+ String c "") = TrimRight c s.
Proof.
  induction s as [|d s IH].
  - simpl. rewrite Ascii.eqb_refl. reflexivity.
  - rewrite app_cons. simpl. rewrite IH. reflexivity.
Qed.

(** Slashes around a path do not survive [strings.Trim]. *)
Lemma Trim_slashes (c : ascii) (s : string) :
  Trim (String c s) c = Trim s c /\ Trim (s +:+ String c "") c = Trim s c.
Proof.
  unfold Trim. split.
  - simpl. rewrite Ascii.eqb_refl. reflexivity.
  - rewrite TrimLeft_snoc. destruct (TrimLeft c s) as [|d t] eqn:Et.
    + reflexivity.
    + apply TrimRight_snoc.
Qed.

(** X20: the schema check.  The path is used without its leading and
    trailing slashes, so a slash more in front or behind changes
    nothing.  With a response captured, a missing schema file and an
    unreadable one are errors of their own, an error of the validator
    is returned as it is, and otherwise the check succeeds exactly when
    the validator finds no violation. *)
Theorem TheResponseShouldMatchJsonSchema_spec (ctx : ApiContext) (path : string) :
  TheResponseShouldMatchJsonSchema ("/" +:+ path) ctx
  = TheResponseShouldMatchJsonSchema path ctx /\
  TheResponseShouldMatchJsonSchema (path +:+ "/") ctx
  = TheResponseShouldMatchJsonSchema path ctx /\
  (forall r, lastResponse ctx = Some r ->
     let schemaPath := jSONSchemasPath ctx +:+ "/" +:+ Trim path slash in
     let result := TheResponseShouldMatchJsonSchema path ctx in
     (os_Stat_IsNotExist schemaPath = true ->
      result = Return (Errorf ("JSON schema file does not exist: " +:+ schemaPath), ctx)) /\
     (forall err,
        os_Stat_IsNotExist schemaPath = false -> ioutil_ReadFile schemaPath = inl err ->
        result = Return (Some (wrapped "cannot open json schema file: " err), ctx)) /\
     (forall schema,
        os_Stat_IsNotExist schemaPath = false -> ioutil_ReadFile schemaPath = inr schema ->
        match gojsonschema_Validate schema (Body r) with
        | inl err => result = Return (Some err, ctx)
        | inr violations => succeeds_iff result ctx (violations = [])
        end)).
Proof.
  refine (conj _ (conj _ _)).
  - unfold TheResponseShouldMatchJsonSchema.
    change ("/" +:+ path) with (String slash path).
    rewrite (proj1 (Trim_slashes slash path)). reflexivity.
  - unfold TheResponseShouldMatchJsonSchema.
    change (path +:+ "/") with (path +:+ String slash "").
    rewrite (proj2 (Trim_slashes slash path)). reflexivity.
  - intros r Hr schemaPath result. unfold result, TheResponseShouldMatchJsonSchema.
    run. fold schemaPath. refine (conj _ (conj _ _)).
    + intros ->. reflexivity.
    + intros err -> ->. reflexivity.
    + intros schema -> ->. run. rewrite Hr.
      destruct (gojsonschema_Validate schema (Body r)) as [err|[|v vs]].
      * reflexivity.
      * split; [tauto | intros Hn; destruct (Hn eq_refl)].
      * split; [split; discriminate | intros _; eexists; reflexivity].
Qed.

End Assertions.

(** A body that is cut short fails the count check with the error of
    the decoder. *)
Lemma json_errors_returned_witness :
  TheJSONPathHaveCount (lib := Reference.fixture) "$.list" 2 (Reference.after_get "{oops")
  = Return (Some (errorString "unexpected end of JSON input"), Reference.after_get "{oops").
Proof.
  refine (proj1 (proj2 (proj2 (proj2 (proj2
            (proj1 (json_errors_returned (lib := Reference.fixture)
                      (Reference.after_get "{oops")
                      (mkApiResponse 200 "{oops" (mkResponse 200 ∅ (inr "{oops")))
                      _)
               (errorString "unexpected end of JSON input") _))))) "$.list" 2%Z).
  - vm_compute. reflexivity.
  - vm_compute. reflexivity.
Defined.

(** The member [a] of the example body is present. *)
Lemma presence_and_pattern_witness :
  TheJSONPathShouldBePresent (lib := Reference.fixture) "$.a"
    (Reference.after_get Reference.json_path_body)
  = Return (None, Reference.after_get Reference.json_path_body).
Proof.
  refine (proj2 (proj1 (proj1 (presence_and_pattern (lib := Reference.fixture)
                                 (Reference.after_get Reference.json_path_body)
                                 (mkApiResponse 200 Reference.json_path_body
                                    (mkResponse 200 ∅ (inr Reference.json_path_body)))
                                 (of_map [("a", of_string "a"); ("b", of_float64 2);
                                          ("c", of_float64 3.5); ("d", of_bool true)])
                                 (of_string "a") "$.a" _ _ _))) _).
  - vm_compute. reflexivity.
  - vm_compute. reflexivity.
  - vm_compute. reflexivity.
  - discriminate.
Defined.

(** The member [d] of the example body, [true], against the spelling [T]. *)
Lemma value_check_of_a_boolean_witness :
  TheJSONPathShouldHaveValue (lib := Reference.fixture) "$.d" "T"
    (Reference.after_get Reference.json_path_body)
  = Return (None, Reference.after_get Reference.json_path_body).
Proof.
  refine (proj2 (proj1 (value_check_of_a_boolean (lib := Reference.fixture)
                          (Reference.after_get Reference.json_path_body)
                          (mkApiResponse 200 Reference.json_path_body
                             (mkResponse 200 ∅ (inr Reference.json_path_body)))
                          (of_map [("a", of_string "a"); ("b", of_float64 2);
                                   ("c", of_float64 3.5); ("d", of_bool true)])
                          true "$.d" "T" _ _ _)) _).
  - vm_compute. reflexivity.
  - vm_compute. reflexivity.
  - vm_compute. reflexivity.
  - apply (bool_decide_unpack _). vm_compute. exact I.
Defined.

(** The status of the reference server's answer. *)
Lemma TheResponseCodeShouldBe_spec_witness :
  TheResponseCodeShouldBe 200 (Reference.after_get Reference.json_path_body)
  = Return (None, Reference.after_get Reference.json_path_body).
Proof.
  refine (proj2 (proj1 (TheResponseCodeShouldBe_spec
                          (Reference.after_get Reference.json_path_body)
                          (mkApiResponse 200 Reference.json_path_body
                             (mkResponse 200 ∅ (inr Reference.json_path_body)))
                          200 _)) _).
  - vm_compute. reflexivity.
  - reflexivity.
Defined.

(** A reference to a key that was never stored is contained in any body. *)
Lemma TheResponseBodyShouldContain_spec_witness :
  TheResponseBodyShouldContain (reference_to "missing")
    (Reference.after_get Reference.json_path_body)
  = Return (None, Reference.after_get Reference.json_path_body).
Proof.
  refine (proj2 (TheResponseBodyShouldContain_spec
                   (Reference.after_get Reference.json_path_body)
                   (mkApiResponse 200 Reference.json_path_body
                      (mkResponse 200 ∅ (inr Reference.json_path_body)))
                   "" _) "missing" _ _).
  - vm_compute. reflexivity.
  - literal_key_name.
  - vm_compute. reflexivity.
Defined.

(** The member [a] of the example body stored and read back. *)
Lemma StoreJsonPathValue_stores_witness :
  StoreJsonPathValue (lib := Reference.fixture) "$.a" "hello"
    (Reference.after_get Reference.json_path_body)
  = Return (None,
            with_scope (<[ "hello" := "a" ]> (scope (Reference.after_get Reference.json_path_body)))
              (Reference.after_get Reference.json_path_body)).
Proof.
  refine (proj1 (proj2 (StoreJsonPathValue_stores (lib := Reference.fixture)
                          (Reference.after_get Reference.json_path_body) "$.a" "hello")
                   (mkApiResponse 200 Reference.json_path_body
                      (mkResponse 200 ∅ (inr Reference.json_path_body)))
                   (of_map [("a", of_string "a"); ("b", of_float64 2);
                            ("c", of_float64 3.5); ("d", of_bool true)])
                   (of_string "a") _ _ _)).
  - vm_compute. reflexivity.
  - vm_compute. reflexivity.
  - vm_compute. reflexivity.
Defined.

End AssertionFacts.

Module RegistryFacts.
Import Strings StringFacts Registry.

Lemma span_spec (class : ascii -> bool) (s a b : string) :
  span class s = (a, b) ->
  s = a +:+ b /\ all_in class a = true /\ stops class b = true.
Proof.
  revert a b. induction s as [|c s IH]; intros a b Hs; simpl in Hs.
  - injection Hs as <- <-. auto.
  - destruct (class c) eqn:Hc.
    + destruct (span class s) as [a' b'] eqn:Hs'. injection Hs as <- <-.
      destruct (IH _ _ eq_refl) as (-> & Ha & Hb).
      simpl. rewrite Hc. auto.
    + injection Hs as <- <-. simpl. rewrite Hc. auto.
Qed.

Lemma span_app (class : ascii -> bool) (a b : string) :
  all_in class a = true -> stops class b = true ->
  span class (a +:+ b) = (a, b).
Proof.
  intros Ha Hb. induction a as [|c a IH].
  - rewrite app_nil_l. destruct b as [|c b]; [reflexivity|].
    simpl in *. destruct (class c); [discriminate|reflexivity].
  - rewrite app_cons. simpl in *. apply andb_prop in Ha as [Hc Ha].
    rewrite Hc, (IH Ha). reflexivity.
Qed.

Lemma span_all (class : ascii -> bool) (a : string) :
  all_in class a = true -> span class a = (a, "").
Proof.
  intros Ha. rewrite <- (app_nil_r a) at 1. apply span_app; [exact Ha|reflexivity].
Qed.

Lemma render_Lit (l : string) (its : list item) (groups : list string) :
  render (Lit l :: its) groups =
  match render its groups with
  | Some t => Some (l +:+ t)
  | None => None
  end.
Proof. destruct groups; reflexivity. Qed.

(** The scan of a well-formed expression accepts exactly the texts that
    start with a rendering of it, and to the end when it is anchored. *)
Lemma match_items_render (anch : bool) (its : list item) :
  well_formed anch its = true ->
  forall (s : string) (groups : list string),
    match_items its anch s = Some groups <->
    exists t rest, render its groups = Some t /\ s = t +:+ rest /\
                   (anch = true -> rest = "").
Proof.
  induction its as [|it its IH]; intros Hwf s groups.
  - simpl. split.
    + intros Hm. exists "", s. destruct anch.
      * destruct s; [|discriminate]. injection Hm as <-. auto.
      * injection Hm as <-. repeat split. discriminate.
    + intros (t & rest & Hr & -> & Hrest).
      destruct groups; [|discriminate]. injection Hr as <-.
      rewrite app_nil_l. destruct anch; [|reflexivity].
      rewrite (Hrest eq_refl). reflexivity.
  - destruct it as [l| | |].
    + simpl in Hwf. simpl match_items. rewrite render_Lit.
      destruct (HasPrefix s l) eqn:Hp.
      * rewrite (IH Hwf). split.
        -- intros (t & rest & Hr & Hs & Hrest). exists (l +:+ t), rest.
           rewrite Hr. refine (conj eq_refl (conj _ Hrest)).
           rewrite app_assoc, <- Hs. apply HasPrefix_inv. exact Hp.
        -- intros (t & rest & Hr & Hs & Hrest).
           destruct (render its groups) as [t'|]; [|discriminate].
           injection Hr as <-. exists t', rest.
           refine (conj eq_refl (conj _ Hrest)).
           rewrite Hs, app_assoc, drop_app. reflexivity.
      * split; [discriminate|]. intros (t & rest & Hr & Hs & _).
        destruct (render its groups) as [t'|]; [|discriminate].
        injection Hr as <-.
        rewrite Hs, app_assoc, HasPrefix_app in Hp. discriminate.
    + simpl in Hwf. split.
      * intros Hm. simpl in Hm. destruct s as [|q s]; [discriminate|].
        destruct (Ascii.eqb q dq) eqn:Hq; [|discriminate].
        apply Ascii.eqb_eq in Hq as ->.
        destruct (span not_quote s) as [body rest] eqn:Hspan.
        destruct rest as [|c rest]; [discriminate|].
        destruct (match_items its anch rest) as [gs|] eqn:Hrec; [|discriminate].
        injection Hm as <-.
        destruct (span_spec _ _ _ _ Hspan) as (-> & Hbody & Hstop).
        simpl in Hstop. unfold not_quote in Hstop.
        rewrite negb_involutive in Hstop. apply Ascii.eqb_eq in Hstop as ->.
        apply (IH Hwf) in Hrec as (t & rest' & Hr & -> & Hrest).
        exists (quoted body +:+ t), rest'. simpl. rewrite Hbody, Hr.
        refine (conj eq_refl (conj _ Hrest)).
        unfold quoted. rewrite !app_cons, !app_assoc, !app_cons, app_nil_l.
        reflexivity.
      * intros (t & rest & Hr & -> & Hrest).
        destruct groups as [|g gs]; [discriminate|]. simpl in Hr.
        destruct (all_in not_quote g) eqn:Hg; [|discriminate].
        destruct (render its gs) as [t'|] eqn:Hr'; [|discriminate].
        injection Hr as <-.
        unfold quoted. rewrite !app_cons, !app_assoc, !app_cons, app_nil_l.
        simpl. rewrite (span_app not_quote g (String dq (t' +:+ rest)) Hg eq_refl).
        assert (Hrec : match_items its anch (t' +:+ rest) = Some gs)
          by (apply (IH Hwf); exists t', rest; auto).
        rewrite Hrec. reflexivity.
    + simpl in Hwf. destruct its as [|it' its']; [|discriminate]. subst anch.
      split.
      * intros Hm. simpl in Hm.
        destruct (span not_quote s) as [body rest] eqn:Hspan.
        destruct rest; [|discriminate]. injection Hm as <-.
        destruct (span_spec _ _ _ _ Hspan) as (-> & Hbody & _).
        exists (body +:+ ""), "". simpl. rewrite Hbody.
        rewrite !app_nil_r. auto.
      * intros (t & rest & Hr & -> & Hrest). rewrite (Hrest eq_refl), app_nil_r.
        destruct groups as [|g gs]; [discriminate|]. simpl in Hr.
        destruct (all_in not_quote g) eqn:Hg; [|discriminate].
        destruct gs; [|discriminate]. injection Hr as <-.
        simpl. rewrite (span_app not_quote g "" Hg eq_refl). reflexivity.
    + assert (Hnext : forall gs t, render its gs = Some t -> forall rest,
                 (anch = true -> rest = "") -> stops is_digit (t +:+ rest) = true).
      { intros gs t Hr rest Hrest. simpl in Hwf.
        destruct its as [|[[|c l]| | |] its']; try discriminate.
        - subst anch. destruct gs; [|discriminate]. injection Hr as <-.
          rewrite (Hrest eq_refl). reflexivity.
        - apply andb_prop in Hwf as [Hc _]. rewrite render_Lit in Hr.
          destruct (render its' gs); [|discriminate]. injection Hr as <-.
          rewrite !app_cons. exact Hc. }
      assert (Hwf' : well_formed anch its = true).
      { simpl in Hwf. destruct its as [|[[|c l]| | |] its']; try discriminate.
        - reflexivity.
        - apply andb_prop in Hwf as [_ Hwf]. exact Hwf. }
      split.
      * intros Hm. simpl in Hm.
        destruct (span is_digit s) as [digits rest] eqn:Hspan.
        destruct digits as [|d digits]; [discriminate|].
        destruct (match_items its anch rest) as [gs|] eqn:Hrec; [|discriminate].
        injection Hm as <-.
        destruct (span_spec _ _ _ _ Hspan) as (-> & Hdigits & _).
        apply (IH Hwf') in Hrec as (t & rest' & Hr & -> & Hrest).
        exists (String d digits +:+ t), rest'.
        change (render (Digits :: its) (String d digits :: gs))
          with (if all_in is_digit (String d digits)
                then match render its gs with
                     | Some t => Some (String d digits +:+ t)
                     | None => None
                     end
                else None).
        rewrite Hdigits, Hr. refine (conj eq_refl (conj _ Hrest)).
        rewrite app_assoc. reflexivity.
      * intros (t & rest & Hr & -> & Hrest).
        destruct groups as [|g gs]; [discriminate|].
        destruct g as [|d g]; [discriminate|].
        change (render (Digits :: its) (String d g :: gs))
          with (if all_in is_digit (String d g)
                then match render its gs with
                     | Some t => Some (String d g +:+ t)
                     | None => None
                     end
                else None) in Hr.
        destruct (all_in is_digit (String d g)) eqn:Hg; [|discriminate].
        destruct (render its gs) as [t'|] eqn:Hr'; [|discriminate].
        injection Hr as <-. rewrite app_assoc.
        change (match_items (Digits :: its) anch (String d g +:+ t' +:+ rest))
          with (match span is_digit (String d g +:+ t' +:+ rest) with
                | (EmptyString, _) => None
                | (digits, rest0) =>
                    match match_items its anch rest0 with
                    | Some groups => Some (digits :: groups)
                    | None => None
                    end
                end).
        rewrite (span_app is_digit (String d g) _ Hg (Hnext _ _ Hr' _ Hrest)).
        assert (Hrec : match_items its anch (t' +:+ rest) = Some gs)
          by (apply (IH Hwf'); exists t', rest; auto).
        rewrite Hrec. reflexivity.
Qed.

Lemma clash_HasPrefix (l1 l2 s : string) :
  clash l1 l2 = true -> HasPrefix s l1 = true -> HasPrefix s l2 = true -> False.
Proof.
  revert l2 s. induction l1 as [|a l1 IH]; intros l2 s Hc H1 H2;
    [discriminate|].
  destruct l2 as [|b l2]; [discriminate|].
  destruct s as [|c s]; [discriminate|]. simpl in *.
  destruct (Ascii.eqb a c) eqn:Hac; [|discriminate].
  destruct (Ascii.eqb b c) eqn:Hbc; [|discriminate].
  apply Ascii.eqb_eq in Hac as ->. apply Ascii.eqb_eq in Hbc as ->.
  rewrite Ascii.eqb_refl in Hc. exact (IH _ _ Hc H1 H2).
Qed.

Lemma disjoint_sound (a1 a2 : bool) (its1 its2 : list item) :
  disjoint a1 a2 its1 its2 = true ->
  forall (s : string) (g1 g2 : list string),
    match_items its1 a1 s = Some g1 -> match_items its2 a2 s = Some g2 -> False.
Proof.
  revert its2. induction its1 as [|it1 its1 IH]; intros its2 Hd s g1 g2 H1 H2.
  - destruct its2 as [|[[|c l]| | |] its2]; try discriminate.
    simpl in Hd. subst a1. simpl in H1. destruct s; [|discriminate].
    discriminate.
  - destruct it1 as [l1| | |].
    + destruct its2 as [|[l2| | |] its2].
      * destruct l1 as [|c l1]; [discriminate|]. simpl in Hd. subst a2.
        simpl in H2. destruct s; discriminate.
      * simpl in Hd, H1, H2.
        destruct (HasPrefix s l1) eqn:Hp1; [|discriminate].
        destruct (HasPrefix s l2) eqn:Hp2; [|discriminate].
        destruct (String.eqb l1 l2) eqn:He.
        -- apply String.eqb_eq in He as ->.
           assert (Hd' : disjoint a1 a2 its1 its2 = true)
             by (destruct l2; exact Hd).
           exact (IH _ Hd' _ _ _ H1 H2).
        -- assert (Hd' : clash l1 l2 = true) by (destruct l1; exact Hd).
           exact (clash_HasPrefix _ _ _ Hd' Hp1 Hp2).
      * destruct l1; discriminate.
      * destruct l1; discriminate.
      * destruct l1; discriminate.
    + destruct its2 as [|[l2| | |] its2]; try discriminate.
      simpl in Hd, H1, H2. destruct s as [|q s]; [discriminate|].
      destruct (Ascii.eqb q dq); [|discriminate].
      destruct (span not_quote s) as [body [|c rest]]; [discriminate|].
      destruct (match_items its1 a1 rest) eqn:Hm1; [|discriminate].
      destruct (match_items its2 a2 rest) eqn:Hm2; [|discriminate].
      exact (IH _ Hd _ _ _ Hm1 Hm2).
    + destruct its2 as [|[l2| | |] its2]; try discriminate.
      simpl in Hd, H1, H2.
      destruct (span not_quote s) as [body rest].
      destruct (match_items its1 a1 rest) eqn:Hm1; [|discriminate].
      destruct (match_items its2 a2 rest) eqn:Hm2; [|discriminate].
      exact (IH _ Hd _ _ _ Hm1 Hm2).
    + destruct its2 as [|[l2| | |] its2]; try discriminate.
      simpl in Hd, H1, H2.
      destruct (span is_digit s) as [[|d digits] rest]; [discriminate|].
      destruct (match_items its1 a1 rest) eqn:Hm1; [|discriminate].
      destruct (match_items its2 a2 rest) eqn:Hm2; [|discriminate].
      exact (IH _ Hd _ _ _ Hm1 Hm2).
Qed.

Lemma pairwise_disjoint_one {A : Type} (ps : list (pattern * A)) (text : string) :
  pairwise_disjoint ps = true -> (length (omap (accepts text) ps) <= 1)%nat.
Proof.
  induction ps as [|[p h] ps IH]; intros Hd; [simpl; lia|].
  simpl in Hd. apply andb_prop in Hd as [Hp Hd]. specialize (IH Hd).
  simpl. unfold groups_of at 1.
  destruct (match_items (items p) (anchored_end p) text) as [g|] eqn:Hm;
    [|exact IH].
  assert (Hnone : omap (accepts text) ps = []).
  { clear IH Hd. induction ps as [|[q k] ps IHps]; [reflexivity|].
    simpl in Hp. apply andb_prop in Hp as [Hq Hp]. simpl.
    unfold groups_of at 1.
    destruct (match_items (items q) (anchored_end q) text) as [g'|] eqn:Hm'.
    - destruct (disjoint_sound _ _ _ _ Hq _ _ _ Hm Hm').
    - exact (IHps Hp). }
  change (length ((h, g) :: omap (accepts text) ps) <= 1)%nat.
  rewrite Hnone. simpl. lia.
Qed.

Lemma registered_well_formed (i : nat) (p : pattern) (h : handler) :
  steps !! i = Some (p, h) -> well_formed (anchored_end p) (items p) = true.
Proof.
  intros Hi.
  assert (Hall : forallb (fun '(p, _) => well_formed (anchored_end p) (items p))
                   steps = true) by (vm_compute; reflexivity).
  rewrite forallb_forall in Hall.
  apply (Hall (p, h)). apply list_elem_of_In.
  exact (list_elem_of_lookup_2 _ _ _ Hi).
Qed.

Ltac spell :=
  unfold quoted, quote;
  repeat first [rewrite app_cons | rewrite app_nil_l | rewrite app_assoc].

Ltac scan :=
  unfold matching, steps, accepts, groups_of; simpl;
  repeat (first [rewrite span_app by (assumption || reflexivity)
                |rewrite span_all by assumption]; simpl).

(** X21: each registered expression accepts exactly the step texts that
    start with what it renders - its literals with the groups put in,
    quoted groups free of double quotes, digit groups non-empty - and,
    where it is anchored at the end, nothing after it; the groups handed
    to the step function are the ones rendered. *)
Theorem registered_expression_accepts (i : nat) (p : pattern) (h : handler)
    (text : string) (groups : list string) :
  steps !! i = Some (p, h) ->
  (groups_of p text = Some groups <->
   exists t rest, render (items p) groups = Some t /\ text = t +:+ rest /\
                  (anchored_end p = true -> rest = "")).
Proof.
  intros Hi. apply match_items_render.
  exact (registered_well_formed _ _ _ Hi).
Qed.

(** X22: no step text is accepted by two registered expressions. *)
Theorem one_step_per_text (text : string) : (length (matching text) <= 1)%nat.
Proof.
  apply pairwise_disjoint_one. vm_compute. reflexivity.
Qed.

(** X23: with arguments free of double quotes, three step texts written
    like the others are accepted by no registered expression: the
    presence check without a double quote after [present], the form
    request ending in one colon, and the header check with its value
    between double quotes. *)
Theorem step_texts_not_accepted (a b : string) :
  all_in not_quote a = true -> all_in not_quote b = true ->
  matching ("The json path " +:+ quoted a +:+ " should be present") = [] /\
  matching ("I send " +:+ quoted a +:+ " request to " +:+ quoted b +:+
            " with form body:") = [] /\
  matching ("The response header " +:+ quoted a +:+ " should have value " +:+
            quoted b) = [].
Proof.
  intros Ha Hb. refine (conj _ (conj _ _)).
  - spell. scan. reflexivity.
  - spell. scan. reflexivity.
  - spell. scan. reflexivity.
Qed.

(** X24: what is accepted instead, with arguments free of double quotes:
    the presence check with a double quote after [present], the form
    request ending in two colons, the header check with a bare value,
    and the scope assignment followed by any further text, which is
    dropped. *)
Theorem step_texts_accepted (a b more : string) :
  all_in not_quote a = true -> all_in not_quote b = true ->
  matching ("The json path " +:+ quoted a +:+ " should be present" +:+ quote) =
    [(to_TheJSONPathShouldBePresent, [a])] /\
  matching ("I send " +:+ quoted a +:+ " request to " +:+ quoted b +:+
            " with form body::") =
    [(to_ISendRequestToWithFormBody, [a; b])] /\
  matching ("The response header " +:+ quoted a +:+ " should have value " +:+ b) =
    [(to_TheResponseHeaderShouldHaveValue, [a; b])] /\
  matching ("I store data in scope variable " +:+ quoted a +:+ " with value " +:+
            quoted b +:+ more) =
    [(to_StoreScopeData, [a; b])].
Proof.
  intros Ha Hb. refine (conj _ (conj _ (conj _ _))).
  - spell. scan. reflexivity.
  - spell. scan. reflexivity.
  - spell. scan. reflexivity.
  - spell. scan. reflexivity.
Qed.

Lemma registered_expression_accepts_witness :
  exists p,
    steps !! 15%nat = Some (p, to_TheJSONPathShouldBePresent) /\
    (groups_of p ("The json path " +:+ quoted "$.a" +:+ " should be present" +:+ quote)
       = Some ["$.a"] <->
     exists t rest,
       render (items p) ["$.a"] = Some t /\
       "The json path " +:+ quoted "$.a" +:+ " should be present" +:+ quote = t +:+ rest /\
       (anchored_end p = true -> rest = "")).
Proof.
  eexists. refine (conj eq_refl _).
  apply (registered_expression_accepts 15 _ to_TheJSONPathShouldBePresent).
  reflexivity.
Defined.

Lemma step_texts_not_accepted_witness :
  matching ("The json path " +:+ quoted "$.a" +:+ " should be present") = [] /\
  matching ("I send " +:+ quoted "$.a" +:+ " request to " +:+ quoted "b" +:+
            " with form body:") = [] /\
  matching ("The response header " +:+ quoted "$.a" +:+ " should have value " +:+
            quoted "b") = [].
Proof.
  apply (step_texts_not_accepted "$.a" "b"); reflexivity.
Defined.

Lemma step_texts_accepted_witness :
  matching ("The json path " +:+ quoted "$.a" +:+ " should be present" +:+ quote) =
    [(to_TheJSONPathShouldBePresent, ["$.a"])] /\
  matching ("I send " +:+ quoted "$.a" +:+ " request to " +:+ quoted "b" +:+
            " with form body::") =
    [(to_ISendRequestToWithFormBody, ["$.a"; "b"])] /\
  matching ("The response header " +:+ quoted "$.a" +:+ " should have value " +:+ "b") =
    [(to_TheResponseHeaderShouldHaveValue, ["$.a"; "b"])] /\
  matching ("I store data in scope variable " +:+ quoted "$.a" +:+ " with value " +:+
            quoted "b" +:+ " today") =
    [(to_StoreScopeData, ["$.a"; "b"])].
Proof.
  apply (step_texts_accepted "$.a" "b" " today"); reflexivity.
Defined.

End RegistryFacts.
